(** * Sentiment Aura: audio gate, transcript router and sentiment fallback

    A shallow embedding of the TypeScript sources

    - the [useDeepgram] hook (microphone capture, voice-activity gate,
      PCM16 encoding, WebSocket life cycle),
    - the [useSentimentAnalysis] hook (client-side fallback),
    - the [Index] page ([handleTranscript], keyword accumulation),
    - the [analyze-sentiment] edge function ([serve]).

    JavaScript numbers are IEEE 754 binary64 values: they are modelled by
    Rocq's primitive floats, which are the same format, so every arithmetic
    step of the source is evaluated bit for bit.  JavaScript strings are
    modelled by [string]; one character stands for one UTF-16 code unit, so
    [String.length] is the source's [.length]. *)

From Stdlib Require Import ZArith Floats Ascii String.
From stdpp Require Import base option list strings gmap.

#[local] Set Warnings "-inexact-float,-clear-no-such-hyp".
Local Open Scope Z_scope.

(** ** JavaScript string and array helpers *)

Module Js.

(** [s.split(sep)] for a one-character separator: the fields between the
    occurrences of [sep], empty fields included; never the empty list. *)
Fixpoint split (sep : ascii) (s : string) : list string :=
  match s with
  | EmptyString => [EmptyString]
  | String c rest =>
      if Ascii.eqb c sep then EmptyString :: split sep rest
      else match split sep rest with
           | w :: ws => String c w :: ws
           | [] => [String c EmptyString]
           end
  end.

(** [fields.join(sep)], the inverse of [split]. *)
Fixpoint join (sep : ascii) (fields : list string) : string :=
  match fields with
  | [] => EmptyString
  | [w] => w
  | w :: ws => (w ++ String sep (join sep ws))%string
  end.

(** [Array.prototype.includes] on an array of strings. *)
Definition includes (l : list string) (x : string) : bool :=
  bool_decide (x ∈ l).

(** [a.slice(0, n)]. *)
Definition slice0 {A} (n : nat) (l : list A) : list A := take n l.

(** [!v] for a value that is a string or undefined ([None]): true for
    undefined and for the empty string. *)
Definition not_string (v : option string) : bool :=
  match v with
  | None => true
  | Some k => bool_decide (k = EmptyString)
  end.

(** No occurrence of the character [c] in [s]. *)
Fixpoint free_of (c : ascii) (s : string) : Prop :=
  match s with
  | EmptyString => True
  | String d rest => d ≠ c ∧ free_of c rest
  end.

End Js.

(** ** [src/types/sentiment.ts] *)

Module Types.

Inductive SentimentLabel := positive | neutral | negative.

Record SentimentData := mkSentimentData {
  sentiment_score : float;
  sentiment_label : SentimentLabel;
  mood : string;
  keywords : list string
}.

Record TranscriptEntry := mkTranscriptEntry {
  text : string;
  timestamp : Z;
  isFinal : bool
}.

End Types.
Import Types.

(** A call of [toast({ title, description, variant })]. *)
Record Toast := mkToast {
  title : string;
  description : string;
  variant : string
}.

(** How a promise settles. *)
Inductive Promise (A : Type) :=
  | Fulfilled (value : A)
  | Rejected (reason : string).
Arguments Fulfilled {A} value.
Arguments Rejected {A} reason.

(** The heuristic that appears four times in the sources:
    [text.split(" ").filter(w => w.length > 4).slice(0, 3)]. *)
Definition long_words (t : string) : list string :=
  Js.slice0 3 (filter (λ w, (4 < String.length w)%nat) (Js.split " " t)).

(** ** Audio frames: RMS gate and PCM16 encoding
    ([processor.onaudioprocess] in [startRecording]) *)

Module Pcm.

Local Open Scope float_scope.

(** [const SPEECH_THRESHOLD = 0.01;  const SILENCE_DURATION = 800;] *)
Definition SPEECH_THRESHOLD : float := 0.01.
Definition SILENCE_DURATION : Z := 800.

(** ECMAScript [Math.min] and [Math.max] on two numbers: NaN when an
    argument is NaN, and [-0] counts as smaller than [+0]. *)
Definition Math_min (a b : float) : float :=
  if is_nan a || is_nan b then nan
  else if a <? b then a
  else if b <? a then b
  else if get_sign a then a else b.

Definition Math_max (a b : float) : float :=
  if is_nan a || is_nan b then nan
  else if b <? a then a
  else if a <? b then b
  else if get_sign a then b else a.

(** [let sum = 0; for (...) sum += inputData[i] * inputData[i];] *)
Definition sum_squares (inputData : list float) : float :=
  fold_left (λ sum x, sum + x * x) inputData 0.

(** [inputData.length] as a number. *)
Definition length_number (inputData : list float) : float :=
  of_uint63 (Uint63.of_Z (Z.of_nat (length inputData))).

(** [const rms = Math.sqrt(sum / inputData.length);] *)
Definition rms (inputData : list float) : float :=
  sqrt (sum_squares inputData / length_number inputData).

(** [const isSpeechDetected = rms > SPEECH_THRESHOLD;] *)
Definition isSpeechDetected (inputData : list float) : bool :=
  SPEECH_THRESHOLD <? rms inputData.

(** [const s = Math.max(-1, Math.min(1, inputData[i]));] *)
Definition clamp (x : float) : float := Math_max (-1) (Math_min 1 x).

(** [s < 0 ? s * 0x8000 : s * 0x7fff] *)
Definition scale (s : float) : float :=
  if s <? 0 then s * 32768 else s * 32767.

(** The integer part of a number, rounding toward zero; [0] for NaN and
    the infinities (the first steps of ECMAScript's [ToInt16]). *)
Definition truncate (x : float) : Z :=
  match Prim2SF x with
  | S754_finite s m e =>
      let magnitude := Z.shiftl (Z.pos m) e in
      if s then (- magnitude)%Z else magnitude
  | _ => 0%Z
  end.

(** ECMAScript [ToInt16], applied by every store into an [Int16Array]:
    the integer part modulo 2^16, read as a signed 16-bit value. *)
Definition ToInt16 (x : float) : Z :=
  let int16bit := (truncate x mod 65536)%Z in
  if (32768 <=? int16bit)%Z then (int16bit - 65536)%Z else int16bit.

(** [pcmData[i] = s < 0 ? s * 0x8000 : s * 0x7fff;] for every [i]. *)
Definition pcmData (inputData : list float) : list Z :=
  (λ x, ToInt16 (scale (clamp x))) <$> inputData.

(** The two bytes of one [Int16Array] element in the array's buffer,
    low byte first (typed arrays use the platform's byte order, which is
    little-endian wherever browsers run). *)
Definition int16_bytes (v : Z) : list Z :=
  let u := (v mod 65536)%Z in [(u mod 256)%Z; (u / 256)%Z].

(** [pcmData.buffer]: the bytes handed to [ws.send]. *)
Definition buffer (pcm : list Z) : list Z :=
  concat (int16_bytes <$> pcm).

(** Reading the buffer back as signed 16-bit little-endian samples. *)
Fixpoint decode (bytes : list Z) : list Z :=
  match bytes with
  | lo :: hi :: rest =>
      let u := (lo + 256 * hi)%Z in
      (if (32768 <=? u)%Z then (u - 65536)%Z else u) :: decode rest
  | _ => []
  end.

(** A number that is NaN or lies in [[-1, 1]]. *)
Definition clamped (s : float) : Prop :=
  is_nan s = true ∨ ((-1 <=? s) = true ∧ (s <=? 1) = true).

End Pcm.

(** ** The [useDeepgram] hook

    React gives every render of the hook its own constants [isConnected],
    [isRecording], [isSpeaking]; the setters change the state the next render
    will read.  The [useRef] cells are shared by all renders.  The browser
    side (media streams, sockets, audio graph, timers) is part of the state,
    so that a resource that is still alive but no longer referenced shows. *)

Module Deepgram.

Inductive ReadyState := CONNECTING | OPEN | CLOSING | CLOSED.

#[export] Instance ReadyState_eq_dec : EqDecision ReadyState.
Proof. solve_decision. Defined.

(** [useState]: the three status flags. *)
Record Flags := mkFlags {
  isConnected : bool;
  isRecording : bool;
  isSpeaking : bool
}.

(** [useRef]: object identities, [None] for [null]. *)
Record Refs := mkRefs {
  wsRef : option nat;
  audioContextRef : option nat;
  processorRef : option nat;
  sourceRef : option nat;
  streamRef : option nat;
  silenceTimeoutRef : option nat
}.

(** What a callback created during a render sees of the hook's state:
    the render's constant [isSpeaking]
    ([const [isSpeaking, setIsSpeaking] = useState(false)]).  A later
    [setIsSpeaking] changes the state, not this constant. *)
Record Render := mkRender { render_isSpeaking : bool }.

(** A socket with the environment of its [onopen] handler: the [stream]
    constant of [connect] and the render whose [startRecording] it calls. *)
Record Socket := mkSocket {
  readyState : ReadyState;
  socket_stream : nat;
  socket_render : Render
}.

(** The function stored in [processor.onaudioprocess].  It is created
    once, when [startRecording] runs, and closes over the parameter [ws]
    and over the [isSpeaking] constant of the render whose [startRecording]
    this is. *)
Record AudioProcess := mkAudioProcess {
  closure_ws : nat;
  closure_isSpeaking : bool
}.

Record Browser := mkBrowser {
  live_streams : gset nat;          (* streams with a track not stopped *)
  sockets : gmap nat Socket;        (* every WebSocket created *)
  contexts : gset nat;              (* AudioContexts not closed *)
  nodes : gset nat;                 (* audio nodes connected to the graph *)
  handlers : gmap nat AudioProcess; (* processor -> onaudioprocess *)
  timers : gmap nat Z;              (* pending timeouts -> delay in ms *)
  sent : list (nat * list Z);       (* ws.send calls, oldest first *)
  toasts : list Toast;              (* toast calls, oldest first *)
  fresh : nat                       (* the next object identity *)
}.

Record World := mkWorld {
  flags : Flags;
  refs : Refs;
  browser : Browser
}.

Definition no_refs : Refs := mkRefs None None None None None None.
Definition idle_flags : Flags := mkFlags false false false.
Definition no_browser : Browser := mkBrowser ∅ ∅ ∅ ∅ ∅ ∅ [] [] 0.

(** The state of a freshly mounted hook. *)
Definition initial : World := mkWorld idle_flags no_refs no_browser.

(** The render that belongs to a state. *)
Definition render_of (w : World) : Render := mkRender (isSpeaking (flags w)).

Definition setIsConnected (b : bool) (f : Flags) : Flags :=
  mkFlags b (isRecording f) (isSpeaking f).
Definition setIsRecording (b : bool) (f : Flags) : Flags :=
  mkFlags (isConnected f) b (isSpeaking f).
Definition setIsSpeaking (b : bool) (f : Flags) : Flags :=
  mkFlags (isConnected f) (isRecording f) b.

Definition set_silenceTimeoutRef (t : option nat) (r : Refs) : Refs :=
  mkRefs (wsRef r) (audioContextRef r) (processorRef r) (sourceRef r)
         (streamRef r) t.

Definition toast (t : Toast) (b : Browser) : Browser :=
  mkBrowser (live_streams b) (sockets b) (contexts b) (nodes b) (handlers b)
            (timers b) (sent b) (toasts b ++ [t]) (fresh b).

(** [ws.send(data)] *)
Definition send (ws : nat) (data : list Z) (b : Browser) : Browser :=
  mkBrowser (live_streams b) (sockets b) (contexts b) (nodes b) (handlers b)
            (timers b) (sent b ++ [(ws, data)]) (toasts b) (fresh b).

(** [clearTimeout(id)] *)
Definition clearTimeout (id : nat) (b : Browser) : Browser :=
  mkBrowser (live_streams b) (sockets b) (contexts b) (nodes b) (handlers b)
            (delete id (timers b)) (sent b) (toasts b) (fresh b).

(** [setTimeout(callback, delay)]: the new timer's identity and the
    browser with the timer pending. *)
Definition setTimeout (delay : Z) (b : Browser) : nat * Browser :=
  (fresh b,
   mkBrowser (live_streams b) (sockets b) (contexts b) (nodes b) (handlers b)
             (<[fresh b := delay]> (timers b)) (sent b) (toasts b)
             (S (fresh b))).

Definition set_sockets (s : gmap nat Socket) (b : Browser) : Browser :=
  mkBrowser (live_streams b) s (contexts b) (nodes b) (handlers b)
            (timers b) (sent b) (toasts b) (fresh b).

Definition set_readyState (ws : nat) (rs : ReadyState) (b : Browser) : Browser :=
  set_sockets
    (alter (λ s, mkSocket rs (socket_stream s) (socket_render s)) ws (sockets b))
    b.

Definition readyState_of (ws : nat) (b : Browser) : option ReadyState :=
  readyState <$> sockets b !! ws.

(** [ws.close()]: a socket that is connecting or open starts closing;
    a closing or closed one stays as it is. *)
Definition close_socket (ws : nat) (b : Browser) : Browser :=
  match readyState_of ws b with
  | Some CONNECTING | Some OPEN => set_readyState ws CLOSING b
  | _ => b
  end.

(** *** [processor.onaudioprocess]

    The socket tested and written to is the closure's [ws]; the refs are
    read from the state; [isSpeaking] in
    [!silenceTimeoutRef.current && isSpeaking] is the closure's constant. *)
Definition onaudioprocess (cl : AudioProcess) (inputData : list float)
    (w : World) : World :=
  if decide (readyState_of (closure_ws cl) (browser w) = Some OPEN) then
    if Pcm.isSpeechDetected inputData then
      let '(r, b) :=
        match silenceTimeoutRef (refs w) with
        | Some id => (set_silenceTimeoutRef None (refs w),
                      clearTimeout id (browser w))
        | None => (refs w, browser w)
        end in
      mkWorld (setIsSpeaking true (flags w)) r
              (send (closure_ws cl) (Pcm.buffer (Pcm.pcmData inputData)) b)
    else
      match silenceTimeoutRef (refs w) with
      | None =>
          if closure_isSpeaking cl then
            let '(id, b) := setTimeout Pcm.SILENCE_DURATION (browser w) in
            mkWorld (flags w) (set_silenceTimeoutRef (Some id) (refs w)) b
          else w
      | Some _ => w
      end
  else w.

(** The callback handed to [setTimeout]:
    [setIsSpeaking(false); silenceTimeoutRef.current = null;] *)
Definition silence_elapsed (w : World) : World :=
  mkWorld (setIsSpeaking false (flags w))
          (set_silenceTimeoutRef None (refs w)) (browser w).

(** *** [startRecording(stream, ws)], called by [ws.onopen] *)
Definition startRecording (rd : Render) (stream ws : nat) (w : World) : World :=
  let b := browser w in
  let audioContext := fresh b in
  let source := S (fresh b) in
  let processor := S (S (fresh b)) in
  mkWorld
    (setIsRecording true (flags w))
    (mkRefs (wsRef (refs w)) (Some audioContext) (Some processor) (Some source)
            (streamRef (refs w)) (silenceTimeoutRef (refs w)))
    (mkBrowser (live_streams b) (sockets b)
       ({[audioContext]} ∪ contexts b)
       ({[source; processor]} ∪ nodes b)
       (<[processor := mkAudioProcess ws (render_isSpeaking rd)]> (handlers b))
       (timers b) (sent b) (toasts b) (S (S (S (fresh b))))).

(** *** [disconnect()]

    Six guarded releases in the order of the source (timer, processor,
    source, audio context, stream tracks, socket), each nulling its ref,
    then the three setters. *)
Definition disconnect (w : World) : World :=
  let r := refs w in
  let b := browser w in
  let b1 := match silenceTimeoutRef r with
            | Some id => clearTimeout id b | None => b end in
  let after_processor := match processorRef r with
                         | Some p => nodes b1 ∖ {[p]} | None => nodes b1 end in
  let after_source := match sourceRef r with
                      | Some s => after_processor ∖ {[s]}
                      | None => after_processor end in
  let ctxs := match audioContextRef r with
              | Some c => contexts b1 ∖ {[c]} | None => contexts b1 end in
  let streams := match streamRef r with
                 | Some s => live_streams b1 ∖ {[s]}
                 | None => live_streams b1 end in
  let b2 := mkBrowser streams (sockets b1) ctxs after_source (handlers b1)
                      (timers b1) (sent b1) (toasts b1) (fresh b1) in
  let b3 := match wsRef r with
            | Some ws => close_socket ws b2 | None => b2 end in
  mkWorld idle_flags no_refs b3.

(** *** [connect()] *)

(** How [navigator.mediaDevices.getUserMedia] settles: a stream, or a
    rejection with the error's message. *)
Inductive UserMedia := Granted | Denied (message : string).

Definition configuration_error : Toast :=
  mkToast "Configuration Error"
    "Deepgram API key is not configured. Please add it to your environment."
    "destructive".

Definition microphone_error (message : string) : Toast :=
  mkToast "Microphone Error" message "destructive".

Definition connection_error : Toast :=
  mkToast "Connection Error" "Failed to connect to transcription service"
    "destructive".

(** How [new WebSocket(url, ["token", DEEPGRAM_API_KEY])] turns out: a
    socket in state CONNECTING, or an exception (the constructor throws a
    SyntaxError when the key is not a valid subprotocol token). *)
Inductive NewWebSocket := Constructed | ConstructorThrows (message : string).

(** [connect], called from the render [rd], with the environment's API key,
    the outcome of the microphone request and of the socket constructor.
    Every exception inside the [try] reaches the one [catch] block, which
    shows the "Microphone Error" toast and throws the error on. *)
Definition connect (rd : Render) (key : option string) (media : UserMedia)
    (socket : NewWebSocket) (w : World) : World * Promise unit :=
  if Js.not_string key then
    let message := "Deepgram API key not configured"%string in
    (mkWorld (flags w) (refs w)
       (toast (microphone_error message)
          (toast configuration_error (browser w))),
     Rejected message)
  else
    match media with
    | Denied message =>
        (mkWorld (flags w) (refs w)
           (toast (microphone_error message) (browser w)),
         Rejected message)
    | Granted =>
        let b := browser w in
        let stream := fresh b in
        let ws := S (fresh b) in
        match socket with
        | ConstructorThrows message =>
            (mkWorld (flags w)
               (mkRefs (wsRef (refs w)) (audioContextRef (refs w))
                       (processorRef (refs w)) (sourceRef (refs w)) (Some stream)
                       (silenceTimeoutRef (refs w)))
               (mkBrowser ({[stream]} ∪ live_streams b) (sockets b)
                  (contexts b) (nodes b) (handlers b) (timers b) (sent b)
                  (toasts b ++ [microphone_error message]) (S (fresh b))),
             Rejected message)
        | Constructed =>
            (mkWorld (flags w)
               (mkRefs (Some ws) (audioContextRef (refs w)) (processorRef (refs w))
                       (sourceRef (refs w)) (Some stream)
                       (silenceTimeoutRef (refs w)))
               (mkBrowser ({[stream]} ∪ live_streams b)
                  (<[ws := mkSocket CONNECTING stream rd]> (sockets b))
                  (contexts b) (nodes b) (handlers b) (timers b) (sent b)
                  (toasts b) (S (S (fresh b)))),
             Fulfilled ())
        end
    end.

(** *** The socket's handlers *)

(** [ws.onopen] *)
Definition ws_onopen (ws : nat) (s : Socket) (w : World) : World :=
  startRecording (socket_render s) (socket_stream s) ws
    (mkWorld (setIsConnected true (flags w)) (refs w) (browser w)).

(** [ws.onerror] *)
Definition ws_onerror (w : World) : World :=
  disconnect (mkWorld (flags w) (refs w) (toast connection_error (browser w))).

(** [ws.onclose] *)
Definition ws_onclose (w : World) : World :=
  mkWorld (setIsRecording false (setIsConnected false (flags w)))
          (refs w) (browser w).

(** *** The browser's event loop, one callback at a time *)
Inductive Event :=
  | SocketOpens (ws : nat)
  | SocketFails (ws : nat)
  | SocketCloses (ws : nat)
  | AudioFrame (processor : nat) (inputData : list float)
  | TimerElapses (id : nat).

Definition with_browser (b : Browser) (w : World) : World :=
  mkWorld (flags w) (refs w) b.

(** An event that cannot occur in the state (an unknown socket, a timer
    that is not pending, a processor that is disconnected) changes
    nothing.  A socket opens only from CONNECTING; a failing or closing
    socket is CLOSED when its handler runs. *)
Definition step (w : World) (e : Event) : World :=
  match e with
  | SocketOpens ws =>
      match sockets (browser w) !! ws with
      | Some s =>
          if decide (readyState s = CONNECTING) then
            ws_onopen ws s (with_browser (set_readyState ws OPEN (browser w)) w)
          else w
      | None => w
      end
  | SocketFails ws =>
      match sockets (browser w) !! ws with
      | Some s =>
          if decide (readyState s = CLOSED) then w
          else ws_onerror (with_browser (set_readyState ws CLOSED (browser w)) w)
      | None => w
      end
  | SocketCloses ws =>
      match sockets (browser w) !! ws with
      | Some s => ws_onclose (with_browser (set_readyState ws CLOSED (browser w)) w)
      | None => w
      end
  | AudioFrame p inputData =>
      match handlers (browser w) !! p with
      | Some cl =>
          if decide (p ∈ nodes (browser w)) then onaudioprocess cl inputData w
          else w
      | None => w
      end
  | TimerElapses id =>
      match timers (browser w) !! id with
      | Some _ => silence_elapsed (with_browser (clearTimeout id (browser w)) w)
      | None => w
      end
  end.

Definition run (w : World) (events : list Event) : World :=
  fold_left step events w.

End Deepgram.

(** ** Resources of the hook: what is held, what is released *)

Module Resources.

Import Deepgram.

(** The object a ref points at, as a set. *)
Definition ref_set (r : option nat) : gset nat :=
  match r with
  | Some i => {[i]}
  | None => ∅
  end.

(** A socket that is connecting or open. *)
Definition connected (s : Socket) : Prop :=
  readyState s = CONNECTING ∨ readyState s = OPEN.

#[export] Instance connected_dec s : Decision (connected s).
Proof. unfold connected. apply _. Defined.

(** Nothing is alive in the browser: no running track, no open audio
    context, no connected node, no pending timer, and every socket is
    closing or closed. *)
Definition no_resource (b : Browser) : Prop :=
  live_streams b = ∅ ∧ contexts b = ∅ ∧ nodes b = ∅ ∧ timers b = ∅
  ∧ map_Forall (λ _ s, ¬ connected s) (sockets b).

(** The clean disconnected state: the idle flags, every ref null, nothing
    alive. *)
Definition clean (w : World) : Prop :=
  flags w = idle_flags ∧ refs w = no_refs ∧ no_resource (browser w).

(** Everything the refs [r] point at is released in [b]. *)
Definition released (r : Refs) (b : Browser) : Prop :=
  ref_set (silenceTimeoutRef r) ## dom (timers b)
  ∧ ref_set (processorRef r) ∪ ref_set (sourceRef r) ## nodes b
  ∧ ref_set (audioContextRef r) ## contexts b
  ∧ ref_set (streamRef r) ## live_streams b
  ∧ match wsRef r with
    | Some ws => readyState_of ws b ≠ Some CONNECTING ∧ readyState_of ws b ≠ Some OPEN
    | None => True
    end.

(** Every live resource is the one its ref points at, and while a socket
    is still connecting the audio graph has not been built. *)
Definition owned (w : World) : Prop :=
  let r := refs w in
  let b := browser w in
  live_streams b ⊆ ref_set (streamRef r)
  ∧ contexts b ⊆ ref_set (audioContextRef r)
  ∧ nodes b ⊆ ref_set (processorRef r) ∪ ref_set (sourceRef r)
  ∧ dom (timers b) ⊆ ref_set (silenceTimeoutRef r)
  ∧ map_Forall (λ ws s, connected s → wsRef r = Some ws) (sockets b)
  ∧ map_Forall (λ _ s, readyState s = CONNECTING →
                       contexts b = ∅ ∧ nodes b = ∅) (sockets b).

(** The states in which the session is stuck on "speaking". *)
Definition stuck (w : World) : Prop :=
  isSpeaking (flags w) = true
  ∧ silenceTimeoutRef (refs w) = None
  ∧ timers (browser w) = ∅
  ∧ map_Forall (λ _ cl, closure_isSpeaking cl = false) (handlers (browser w)).

(** The socket [ws] exists and is connecting or open. *)
Definition alive (ws : nat) (w : World) : Prop :=
  ∃ s, sockets (browser w) !! ws = Some s ∧ connected s.

(** The failures of [connect] that its handlers clean up after: the
    microphone request is rejected, or the socket that [connect] created
    fails, at once or after some activity ([before]) that neither fails nor
    closes a socket.  (An exception of the socket constructor is not among
    them; it is looked at on its own.) *)
Inductive Failure :=
  | MicrophoneDenied (message : string)
  | ConnectionFails (before : list Event).

Definition keeps_socket (e : Event) : bool :=
  match e with
  | SocketFails _ | SocketCloses _ => false
  | SocketOpens _ | AudioFrame _ _ | TimerElapses _ => true
  end.

Definition well_formed (f : Failure) : bool :=
  match f with
  | MicrophoneDenied _ => true
  | ConnectionFails before => forallb keeps_socket before
  end.

(** The identity of the socket a successful [connect] creates in [w]. *)
Definition new_socket (w : World) : nat := S (fresh (browser w)).

(** The state after the failing execution and how the promise of
    [connect] settled. *)
Definition failed_connect (rd : Render) (key : option string) (w0 : World)
    (f : Failure) : World * Promise unit :=
  match f with
  | MicrophoneDenied message => connect rd key (Denied message) Constructed w0
  | ConnectionFails before =>
      let '(w, p) := connect rd key Granted Constructed w0 in
      (run w (before ++ [SocketFails (new_socket w0)]), p)
  end.

(** The toast that tells the user of the failure. *)
Definition failure_toast (f : Failure) : Toast :=
  match f with
  | MicrophoneDenied message => microphone_error message
  | ConnectionFails _ => connection_error
  end.

End Resources.

(** ** Concrete sessions used to exercise the model *)

Module Scenario.

Import Deepgram.

(** A session that is recording: [connect] on the freshly mounted hook
    with microphone access granted, then the socket opens.  The socket is
    object 1 and the processor is object 4. *)
Definition recording : World :=
  run (connect (render_of initial) (Some "key"%string) Granted Constructed
         initial).1
      [SocketOpens 1].

Definition loud : list float := [0.5; -0.5; 0.25; 1.5]%float.
Definition quiet : list float := [0.001; -0.002; 0; 0.001]%float.

(** The session after its first frame of speech. *)
Definition speaking : World := step recording (AudioFrame 4 loud).

(** Audio frames and timer expiries: what the event loop delivers while
    the user neither stops nor loses the connection. *)
Definition audio_or_timer (e : Event) : bool :=
  match e with
  | AudioFrame _ _ | TimerElapses _ => true
  | SocketOpens _ | SocketFails _ | SocketCloses _ => false
  end.

(** A microphone request that is turned down, and a socket that fails
    while the session is recording. *)
Definition denied : Resources.Failure :=
  Resources.MicrophoneDenied "Permission denied".
Definition fails_while_recording : Resources.Failure :=
  Resources.ConnectionFails [SocketOpens 1; AudioFrame 4 loud; AudioFrame 4 quiet].

End Scenario.

(** ** The [useSentimentAnalysis] hook *)

Module SentimentHook.

(** How [supabase.functions.invoke] settles: with [{ data, error }]
    ([error] is set for a response outside 2xx, a relay or a fetch
    failure), or with a rejection. *)
Inductive Invoke :=
  | Settles (data : option SentimentData) (error : option string)
  | Throws (reason : string).

(** What one call of [analyzeSentiment] does: how its promise settles,
    the toasts it shows and the values it gives [setIsAnalyzing], in
    order. *)
Record Call := mkCall {
  promise : Promise (option SentimentData);
  toasts : list Toast;
  isAnalyzing : list bool
}.

Definition analysis_error : Toast :=
  mkToast "Analysis Error" "Failed to analyze sentiment. Using fallback."
    "destructive".

(** The object returned from the [catch] block. *)
Definition fallback (text : string) : SentimentData :=
  mkSentimentData 0.5 neutral "undetermined" (long_words text).

Definition analyzeSentiment (invoke : string → Invoke) (text : string) : Call :=
  match invoke text with
  | Settles data None => mkCall (Fulfilled data) [] [true; false]
  | Settles _ (Some _) | Throws _ =>
      mkCall (Fulfilled (Some (fallback text))) [analysis_error] [true; false]
  end.

(** The sentiment call failed: [invoke] threw, or it came back with
    [error] set, which the hook throws itself. *)
Definition call_failed (i : Invoke) : bool :=
  match i with
  | Settles _ None => false
  | Settles _ (Some _) | Throws _ => true
  end.

End SentimentHook.

(** ** The [Index] page: transcript router *)

Module Index.

Record State := mkState {
  transcripts : list TranscriptEntry;
  interimTranscript : string;
  sentimentScore : float;
  sentimentLabel : SentimentLabel;
  mood : string;
  keywords : list string
}.

(** The arguments of the six [useState] calls. *)
Definition initial : State := mkState [] "" 0.5 neutral "neutral" [].

(** The updater given to [setKeywords]:
    [prev => [...prev, ...result.keywords.filter(kw => !prev.includes(kw))]] *)
Definition accumulate (result_keywords prev : list string) : list string :=
  prev ++ filter (λ kw, Js.includes prev kw = false) result_keywords.

(** How many entries of the accumulator are the keyword [kw]. *)
Definition entries (kw : string) (acc : list string) : nat :=
  length (filter (λ x, x = kw) acc).

(** [handleTranscript] up to its [await]: the new state and the texts
    [analyzeSentiment] is called with. *)
Definition handleTranscript (transcript : TranscriptEntry) (s : State)
    : State * list string :=
  if isFinal transcript then
    (mkState (transcripts s ++ [transcript]) "" (sentimentScore s)
             (sentimentLabel s) (mood s) (keywords s),
     [text transcript])
  else
    (mkState (transcripts s) (text transcript) (sentimentScore s)
             (sentimentLabel s) (mood s) (keywords s),
     []).

(** [handleTranscript] from its [await] on, once the promise of
    [analyzeSentiment] has settled. *)
Definition resume (settled : Promise (option SentimentData)) (s : State) : State :=
  match settled with
  | Fulfilled (Some result) =>
      mkState (transcripts s) (interimTranscript s)
              (sentiment_score result) (sentiment_label result)
              (Types.mood result)
              (accumulate (Types.keywords result) (keywords s))
  | Fulfilled None | Rejected _ => s
  end.

(** The callbacks of the page in the order the event loop runs them. *)
Inductive Event :=
  | Transcript (transcript : TranscriptEntry)
  | SentimentSettled (settled : Promise (option SentimentData)).

(** One callback: the new state and the sentiment requests it issues. *)
Definition step (s : State) (e : Event) : State * list string :=
  match e with
  | Transcript t => handleTranscript t s
  | SentimentSettled p => (resume p s, [])
  end.

Fixpoint run (s : State) (events : list Event) : State * list string :=
  match events with
  | [] => (s, [])
  | e :: rest =>
      let '(s1, requests1) := step s e in
      let '(s2, requests2) := run s1 rest in
      (s2, requests1 ++ requests2)
  end.

End Index.

(** ** The [analyze-sentiment] edge function *)

Module Edge.

(** The value of [body.text]: a string, undefined, or something else,
    of which only its truthiness matters. *)
Inductive TextField := TextString (s : string) | TextUndefined | TextOther (truthy : bool).

(** How [await req.json()] and [body.text] turn out: the body is not
    JSON, it is JSON [null] (reading [.text] throws), or [.text] has a
    value. *)
Inductive RequestBody := NotJson | NullBody | Body (text : TextField).

Record Request := mkRequest {
  method : string;
  request_body : RequestBody
}.

(** [data.choices?.[0]?.message?.tool_calls?.[0]] when it is truthy:
    its [function] member, if any, with the members [name] and
    [arguments]. *)
Record ToolCall := mkToolCall { tool_function : option (string * string) }.

(** How [await response.json()] turns out on the gateway's reply. *)
Inductive Completion := NotCompletionJson | Data (toolCall : option ToolCall).

(** How [await fetch(gateway)] turns out: a rejection, or a response with
    its status, its text and its JSON reading. *)
Inductive Fetch :=
  | FetchFails
  | Replies (status : Z) (errorText : string) (completion : Completion).

(** [response.ok] *)
Definition ok (status : Z) : bool := (200 <=? status) && (status <=? 299).

Section Serve.

(** Parsed JSON values and [JSON.parse] ([None] when it throws). *)
Variable Json : Type.
Variable JSON_parse : string → option Json.

Inductive ResponseBody :=
  | NullResponse
  | Fallback (error : option string) (fallback : SentimentData)
  | Result (result : Json).

Record Response := mkResponse {
  status : Z;
  response_body : ResponseBody
}.

(** [!text || typeof text !== "string"] *)
Definition invalid_text (t : TextField) : bool :=
  match t with
  | TextString s => Js.not_string (Some s)
  | TextUndefined | TextOther _ => true
  end.

(** The [catch] block; [text] is the variable as the [try] block
    left it. *)
Definition catch_block (text : TextField) : Response :=
  let fallbackKeywords :=
    match text with
    | TextString s =>
        if Js.not_string (Some s) then ["analysis"; "error"]%string
        else match long_words s with
             | [] => ["analysis"; "error"]%string
             | words => words
             end
    | TextUndefined | TextOther _ => ["analysis"; "error"]%string
    end in
  mkResponse 200
    (Fallback None (mkSentimentData 0.5 neutral "undetermined" fallbackKeywords)).

Definition rate_limited (s : string) : Response :=
  mkResponse 429
    (Fallback (Some "Rate limit exceeded. Please try again in a moment."%string)
       (mkSentimentData 0.5 neutral "undetermined" (long_words s))).

Definition payment_required (s : string) : Response :=
  mkResponse 402
    (Fallback (Some "AI credits exhausted. Please add credits to continue."%string)
       (mkSentimentData 0.5 neutral "undetermined" (long_words s))).

(** The handler given to [serve]; [api_key] is
    [Deno.env.get("LOVABLE_API_KEY")] and [fetch] the gateway's answer
    to the text. *)
Definition serve (api_key : option string) (fetch : string → Fetch)
    (req : Request) : Response :=
  if bool_decide (method req = "OPTIONS"%string) then mkResponse 200 NullResponse
  else
    match request_body req with
    | NotJson | NullBody => catch_block (TextString "")
    | Body text =>
        match text with
        | TextString s =>
            if invalid_text text then catch_block text
            else if Js.not_string api_key then catch_block text
            else
              match fetch s with
              | FetchFails => catch_block text
              | Replies st errorText completion =>
                  if negb (ok st) then
                    if bool_decide (st = 429) then rate_limited s
                    else if bool_decide (st = 402) then payment_required s
                    else catch_block text
                  else
                    match completion with
                    | NotCompletionJson => catch_block text
                    | Data None => catch_block text
                    | Data (Some (mkToolCall None)) => catch_block text
                    | Data (Some (mkToolCall (Some (name, arguments)))) =>
                        if bool_decide (name = "analyze_sentiment"%string) then
                          match JSON_parse arguments with
                          | Some result => mkResponse 200 (Result result)
                          | None => catch_block text
                          end
                        else catch_block text
                    end
              end
        | TextUndefined | TextOther _ => catch_block text
        end
    end.

(** The gateway's reply carries no usable tool call: the body is not JSON,
    there is no tool call or it has no [function], the function is not
    [analyze_sentiment], or its arguments do not parse. *)
Definition malformed (c : Completion) : bool :=
  match c with
  | NotCompletionJson | Data None | Data (Some (mkToolCall None)) => true
  | Data (Some (mkToolCall (Some (name, arguments)))) =>
      negb (bool_decide (name = "analyze_sentiment"%string))
      || bool_decide (JSON_parse arguments = None)
  end.

(** The expected error classes of the upstream call. *)
Inductive ErrorClass := RateLimit | QuotaExhausted | MalformedOutput.

Definition in_class (c : ErrorClass) (f : Fetch) : bool :=
  match f with
  | FetchFails => false
  | Replies st _ completion =>
      match c with
      | RateLimit => bool_decide (st = 429)
      | QuotaExhausted => bool_decide (st = 402)
      | MalformedOutput => ok st && malformed completion
      end
  end.

End Serve.

Arguments NullResponse {Json}.
Arguments Fallback {Json} error fallback.
Arguments Result {Json} result.
Arguments mkResponse {Json} status response_body.
Arguments status {Json} r.
Arguments response_body {Json} r.
Arguments catch_block {Json} text.
Arguments rate_limited {Json} s.
Arguments payment_required {Json} s.
Arguments serve {Json} JSON_parse api_key fetch req.
Arguments malformed {Json} JSON_parse c.
Arguments in_class {Json} JSON_parse c f.

(** The text of a request the function accepts: [body.text] is a
    non-empty string. *)
Definition valid_text (b : RequestBody) : option string :=
  match b with
  | Body (TextString t) => if Js.not_string (Some t) then None else Some t
  | _ => None
  end.

(** The upstream call failed outside the rate-limit and quota cases: the
    fetch was rejected, or the status is outside 2xx and neither 429
    nor 402. *)
Definition other_failure (f : Fetch) : bool :=
  match f with
  | FetchFails => true
  | Replies st _ _ =>
      negb (ok st) && negb (bool_decide (st = 429)) && negb (bool_decide (st = 402))
  end.

(** The keywords of the [catch] block for a valid text. *)
Definition catch_keywords (t : string) : list string :=
  match long_words t with
  | [] => ["analysis"; "error"]%string
  | words => words
  end.

(** The status the function answers with in each class. *)
Definition class_status (c : ErrorClass) : Z :=
  match c with
  | RateLimit => 429
  | QuotaExhausted => 402
  | MalformedOutput => 200
  end.

End Edge.

(** ** Concrete inputs for the router, the hook and the edge function *)

Module Cases.

(** A network failure of the sentiment call. *)
Definition offline (text : string) : SentimentHook.Invoke :=
  SentimentHook.Throws "Failed to fetch".

(** Two final transcripts: the sentiment call of the first fails, so the
    hook's own fallback comes back; the second is answered by the service
    with the keyword "really". *)
Definition first_final : TranscriptEntry :=
  mkTranscriptEntry "really really good" 1000 true.
Definition second_final : TranscriptEntry :=
  mkTranscriptEntry "really" 2000 true.
Definition interim : TranscriptEntry :=
  mkTranscriptEntry "I feel" 500 false.

Definition two_finals : list Index.Event :=
  [ Index.Transcript first_final;
    Index.SentimentSettled
      (SentimentHook.promise
         (SentimentHook.analyzeSentiment offline (text first_final)));
    Index.Transcript second_final;
    Index.SentimentSettled
      (Fulfilled (Some (mkSentimentData 0.8 positive "upbeat" ["really"%string]))) ].

(** A JSON reader that accepts nothing, and a gateway that answers every
    text with the given status and no completion. *)
Definition no_json (arguments : string) : option unit := None.
Definition gateway (st : Z) (text : string) : Edge.Fetch :=
  Edge.Replies st "" Edge.NotCompletionJson.
Definition post (text : string) : Edge.Request :=
  Edge.mkRequest "POST" (Edge.Body (Edge.TextString text)).

(** The claim as the specification words it, at one text: a neutral
    result with a keyword list that is not empty. *)
Definition nonempty_fallback (invoke : string → SentimentHook.Invoke) (t : string) : Prop :=
  ∃ r, SentimentHook.promise (SentimentHook.analyzeSentiment invoke t) = Fulfilled (Some r)
       ∧ sentiment_label r = neutral
       ∧ sentiment_score r = 0.5%float
       ∧ keywords r ≠ [].

(** The claim as the specification words it, at one request: an expected
    upstream failure is answered with status 200. *)
Definition degrades_with_200 (c : Edge.ErrorClass) (st : Z) (t : string) : Prop :=
  Edge.in_class no_json c (gateway st t) = true →
  Edge.status (Edge.serve no_json (Some "key"%string) (gateway st) (post t)) = 200.

End Cases.

(** ** [ws.onmessage] of the [useDeepgram] hook *)

Module Message.

(** White space as [String.prototype.trim] sees it, among the code units
    a [string] character can hold: TAB, LF, VT, FF, CR, SP and NBSP. *)
Definition is_space (c : ascii) : bool :=
  match nat_of_ascii c with
  | 9 | 10 | 11 | 12 | 13 | 32 | 160 => true
  | _ => false
  end%nat.

Fixpoint trimStart (s : string) : string :=
  match s with
  | EmptyString => EmptyString
  | String c rest => if is_space c then trimStart rest else s
  end.

Fixpoint trimEnd (s : string) : string :=
  match s with
  | EmptyString => EmptyString
  | String c rest =>
      match trimEnd rest with
      | EmptyString => if is_space c then EmptyString else String c EmptyString
      | kept => String c kept
      end
  end.

(** [s.trim()] *)
Definition trim (s : string) : string := trimEnd (trimStart s).

(** The string has a character that is not white space. *)
Fixpoint has_ink (s : string) : bool :=
  match s with
  | EmptyString => false
  | String c rest => negb (is_space c) || has_ink rest
  end.

(** What the handler reads of the parsed message:
    [data.channel?.alternatives?.[0]] when it is truthy, with its
    [transcript] when that is a string, and whether [data.is_final === true]. *)
Record Alternative := mkAlternative { transcript : option string }.

Record Envelope := mkEnvelope {
  alternative : option Alternative;
  is_final_true : bool
}.

(** [transcript && transcript.trim()] *)
Definition speaks (t : option string) : bool :=
  match t with
  | Some tr => negb (Js.not_string (Some tr)) && negb (Js.not_string (Some (trim tr)))
  | None => false
  end.

(** The handler: the entry it calls [onTranscript] with, if it calls it.
    [now] is [Date.now()]. *)
Definition ws_onmessage (now : Z) (data : Envelope) : option TranscriptEntry :=
  match alternative data with
  | Some alt =>
      match transcript alt with
      | Some tr =>
          if speaks (Some tr) then Some (mkTranscriptEntry tr now (is_final_true data))
          else None
      | None => None
      end
  | None => None
  end.

(** A message arrives while the page listens: the handler's callback is the
    page's [handleTranscript]. *)
Definition deliver (now : Z) (data : Envelope) (s : Index.State)
    : Index.State * list string :=
  match ws_onmessage now data with
  | Some entry => Index.handleTranscript entry s
  | None => (s, [])
  end.

End Message.

(** ** What a run of the page's callbacks received *)

Module Received.

(** The final transcripts among the events, in order. *)
Fixpoint finals (events : list Index.Event) : list TranscriptEntry :=
  match events with
  | [] => []
  | Index.Transcript t :: rest =>
      if isFinal t then t :: finals rest else finals rest
  | Index.SentimentSettled _ :: rest => finals rest
  end.

(** The sentiment results among the events, in order: the values of the
    promises that were fulfilled with a result. *)
Fixpoint results (events : list Index.Event) : list SentimentData :=
  match events with
  | [] => []
  | Index.SentimentSettled (Fulfilled (Some r)) :: rest => r :: results rest
  | _ :: rest => results rest
  end.

End Received.

(** ** The [KeywordsDisplay] component *)

Module KeywordsDisplay.

Record Displayed := mkDisplayed { word : string; id : string }.

Section Effect.

(** [`${word}-${Date.now()}-${Math.random()}`], whatever it comes to. *)
Variable fresh_id : string → string.

(** The effect that runs when [keywords] changes.  [rendered] is the
    [displayedKeywords] constant of the render the effect belongs to,
    [prev] the state the updater is applied to. *)
Definition effect (keywords : list string) (rendered prev : list Displayed)
    : list Displayed :=
  let newKeywords :=
    (λ w, mkDisplayed w (fresh_id w))
      <$> filter (λ w, w ∉ word <$> rendered) keywords in
  match newKeywords with
  | [] => prev
  | _ => prev ++ newKeywords
  end.

(** [isTopKeyword]: the entry rendered as the highlighted one. *)
Definition top (displayed : list Displayed) : option Displayed := last displayed.

End Effect.

End KeywordsDisplay.

(** ** The [AuraCanvas] component: targets and particles *)

Module Aura.

Local Open Scope float_scope.

Record Targets := mkTargets {
  targetHue : float;
  targetSaturation : float;
  targetBrightness : float;
  targetEnergy : float;
  targetFlowSpeed : float;
  targetStrokeWeight : float
}.

(** What the sketch reads of [sentimentRef.current]: the label and
    [keywords.length]. *)
Record Props := mkProps { label : SentimentLabel; keywordCount : nat }.

Definition count_number (n : nat) : float :=
  of_uint63 (Uint63.of_Z (Z.of_nat n)).

(** [updateVisualization]: the targets it assigns. *)
Definition updateVisualization (props : Props) : Targets :=
  let base :=
    match label props with
    | positive => mkTargets 50 95 85 1.8 0.005 3.5
    | negative => mkTargets 240 80 30 0.25 0.0008 1.2
    | neutral => mkTargets 200 65 55 0.7 0.002 2
    end in
  match keywordCount props with
  | O => base
  | n =>
      mkTargets (targetHue base) (targetSaturation base) (targetBrightness base)
        (targetEnergy base + count_number n * 0.15)
        (targetFlowSpeed base)
        (targetStrokeWeight base + count_number n * 0.25)
  end.

(** The variables of the sketch that [draw] keeps between frames. *)
Record Sketch := mkSketch {
  lastLabel : SentimentLabel;
  lastKeywordCount : nat;
  targets : Targets
}.

#[export] Instance SentimentLabel_eq_dec : EqDecision SentimentLabel.
Proof. solve_decision. Defined.

(** The effect that creates the sketch: [lastLabel] and [lastKeywordCount]
    are initialised from the props, then [updateVisualization()] runs. *)
Definition mount (props : Props) : Sketch :=
  mkSketch (label props) (keywordCount props) (updateVisualization props).

(** The head of [p.draw]: the targets are recomputed only when the label or
    the number of keywords differs from the last frame's. *)
Definition draw (sk : Sketch) (props : Props) : Sketch :=
  if bool_decide (label props ≠ lastLabel sk)
     || bool_decide (keywordCount props ≠ lastKeywordCount sk)
  then mkSketch (label props) (keywordCount props) (updateVisualization props)
  else sk.

(** One coordinate of [Particle.update]'s wrap around the edges:
    [if (x < 0) x = size;  if (x > size) x = 0;] *)
Definition wrap (size x : float) : float :=
  let x1 := if x <? 0 then size else x in
  if size <? x1 then 0 else x1.

(** The sketch's targets are those of the props it saw last. *)
Definition in_step (sk : Sketch) (props : Props) : Prop :=
  targets sk = updateVisualization props
  ∧ lastLabel sk = label props
  ∧ lastKeywordCount sk = keywordCount props.

End Aura.

(** ** Shapes of what the hook sends and schedules *)

Module Wire.

Import Deepgram.

(** A sent message is a whole number of 16-bit samples: an even number of
    bytes, each in [0, 255]. *)
Definition whole_samples (message : nat * list Z) : Prop :=
  Nat.even (length message.2) = true ∧ Forall (λ b, 0 ≤ b < 256) message.2.

(** The pending timers are exactly what [silenceTimeoutRef] says: none, or
    the one silence timer with its delay of [SILENCE_DURATION]. *)
Definition one_silence_timer (w : World) : Prop :=
  timers (browser w) =
    match silenceTimeoutRef (refs w) with
    | Some t => {[t := Pcm.SILENCE_DURATION]}
    | None => ∅
    end.

(** An earlier stream that no ref points at is out of reach of every
    later release. *)
Definition stranded (s0 : nat) (w : World) : Prop :=
  s0 ∈ live_streams (browser w) ∧ streamRef (refs w) ≠ Some s0.

End Wire.

(** * Properties *)

(** ** IEEE 754 comparisons *)

Module FloatFacts.

Local Open Scope float_scope.

Lemma SFcompare_antisym a b c :
  SFcompare a b = Some c → SFcompare b a = Some (CompOpp c).
Proof.
  destruct a as [sa|sa| |sa ma ea], b as [sb|sb| |sb mb eb]; simpl;
    try discriminate;
    try (destruct sa; intros [= <-]; reflexivity);
    try (destruct sb; intros [= <-]; reflexivity);
    try (destruct sa, sb; intros [= <-]; reflexivity).
  pose proof (Pos.compare_cont_antisym ma mb Eq) as Hm. simpl in Hm.
    rewrite (Z.compare_antisym ea eb), <- Hm.
    destruct sa, sb; intros [= <-]; try reflexivity;
      destruct (ea ?= eb)%Z; simpl; try reflexivity;
      destruct (Pos.compare_cont Eq ma mb); reflexivity.
Qed.

Lemma SFcompare_refl a : a ≠ S754_nan → SFcompare a a = Some Eq.
Proof.
  destruct a as [s|s| |s m e]; simpl; intros Hn; try congruence.
  - destruct s; reflexivity.
  - rewrite Z.compare_refl, Pos.compare_cont_refl. destruct s; reflexivity.
Qed.

Lemma SFcompare_total a b :
  a ≠ S754_nan → b ≠ S754_nan → ∃ c, SFcompare a b = Some c.
Proof.
  destruct a, b; simpl; intros Ha Hb; try congruence; eauto.
Qed.

Lemma is_nan_false x : is_nan x = false → Prim2SF x ≠ S754_nan.
Proof.
  unfold is_nan. rewrite FloatAxioms.eqb_spec. unfold SFeqb. intros H E.
  rewrite E in H. discriminate.
Qed.

(** [x <= y] excludes [y < x]. *)
Lemma leb_not_gt x y : (x <=? y) = true → (y <? x) = false.
Proof.
  rewrite FloatAxioms.leb_spec, FloatAxioms.ltb_spec. unfold SFleb, SFltb.
  destruct (SFcompare (Prim2SF x) (Prim2SF y)) as [c|] eqn:E; [|discriminate].
  rewrite (SFcompare_antisym _ _ _ E). destruct c; simpl; congruence.
Qed.

Lemma ltb_leb x y : (x <? y) = true → (x <=? y) = true.
Proof.
  rewrite FloatAxioms.leb_spec, FloatAxioms.ltb_spec. unfold SFleb, SFltb.
  destruct (SFcompare (Prim2SF x) (Prim2SF y)) as [[]|]; congruence.
Qed.

Lemma leb_refl x : is_nan x = false → (x <=? x) = true.
Proof.
  intros H. rewrite FloatAxioms.leb_spec. unfold SFleb.
  rewrite SFcompare_refl; [reflexivity | by apply is_nan_false].
Qed.

(** Two numbers neither of which is below the other are equal as
    numbers, so each is at most the other. *)
Lemma not_lt_leb x y :
  is_nan x = false → is_nan y = false →
  (x <? y) = false → (y <? x) = false →
  (x <=? y) = true ∧ (y <=? x) = true.
Proof.
  intros Hx%is_nan_false Hy%is_nan_false.
  rewrite !FloatAxioms.leb_spec, !FloatAxioms.ltb_spec. unfold SFleb, SFltb.
  destruct (SFcompare_total _ _ Hx Hy) as [c E].
  rewrite E, (SFcompare_antisym _ _ _ E). destruct c; simpl; try discriminate.
  done.
Qed.

Lemma not_ltb_leb x y :
  is_nan x = false → is_nan y = false → (x <? y) = false → (y <=? x) = true.
Proof.
  intros Hx%is_nan_false Hy%is_nan_false.
  rewrite !FloatAxioms.leb_spec, !FloatAxioms.ltb_spec. unfold SFleb, SFltb.
  destruct (SFcompare_total _ _ Hx Hy) as [c E].
  rewrite E, (SFcompare_antisym _ _ _ E). destruct c; simpl; congruence.
Qed.

(** A comparison that holds involves no NaN. *)
Lemma leb_not_nan x y : (x <=? y) = true → is_nan x = false ∧ is_nan y = false.
Proof.
  rewrite FloatAxioms.leb_spec. unfold SFleb, is_nan.
  rewrite !FloatAxioms.eqb_spec. unfold SFeqb. intros H.
  destruct (Prim2SF x) eqn:Ex, (Prim2SF y) eqn:Ey; try discriminate;
    rewrite !SFcompare_refl by discriminate; done.
Qed.

End FloatFacts.

(** ** PCM16 encoding *)

Module PcmFacts.

Import FloatFacts.
Local Open Scope float_scope.

Lemma Math_min_upper a x :
  is_nan a = false →
  is_nan (Pcm.Math_min a x) = true
  ∨ (is_nan (Pcm.Math_min a x) = false ∧ (Pcm.Math_min a x <=? a) = true).
Proof.
  intros Ha. unfold Pcm.Math_min. rewrite Ha. simpl.
  destruct (is_nan x) eqn:Hx; [by left|]. right.
  destruct (a <? x) eqn:Hax; [by split; [|apply leb_refl]|].
  destruct (x <? a) eqn:Hxa; [by split; [|apply ltb_leb]|].
  destruct (not_lt_leb a x Ha Hx Hax Hxa) as [? ?].
  destruct (get_sign a); split; auto using leb_refl.
Qed.

Lemma Math_max_bounds lo hi m :
  is_nan lo = false → is_nan m = false →
  (lo <=? hi) = true → (m <=? hi) = true →
  (lo <=? Pcm.Math_max lo m) = true ∧ (Pcm.Math_max lo m <=? hi) = true.
Proof.
  intros Hlo Hm Hlohi Hmhi. unfold Pcm.Math_max. rewrite Hlo, Hm. simpl.
  destruct (m <? lo) eqn:H1; [by split; [apply leb_refl|]|].
  destruct (lo <? m) eqn:H2; [by split; [apply ltb_leb|]|].
  destruct (not_lt_leb lo m Hlo Hm H2 H1) as [? ?].
  destruct (get_sign lo); split; auto using leb_refl.
Qed.

(** The clamp of the source leaves NaN as it is and brings every other
    number into [[-1, 1]]. *)
Lemma clamp_clamped x : Pcm.clamped (Pcm.clamp x).
Proof.
  unfold Pcm.clamped, Pcm.clamp.
  destruct (Math_min_upper 1 x eq_refl) as [Hn | [Hn Hle]].
  - left. unfold Pcm.Math_max. rewrite Hn. reflexivity.
  - right. by apply Math_max_bounds.
Qed.

Lemma ToInt16_range x : (-32768 ≤ Pcm.ToInt16 x ≤ 32767)%Z.
Proof.
  unfold Pcm.ToInt16.
  pose proof (Z.mod_pos_bound (Pcm.truncate x) 65536 eq_refl).
  case_match; lia.
Qed.

(** Samples at, inside and outside the clamp, and NaN. *)
Lemma pcmData_samples :
  Pcm.pcmData [0.5; -1; 1; 2; -3; nan; -0.25; 0]%float =
  [16383; -32768; 32767; 32767; -32768; 0; -8192; 0]%Z.
Proof. by vm_compute. Qed.

Lemma pcmData_length inputData :
  length (Pcm.pcmData inputData) = length inputData.
Proof. unfold Pcm.pcmData. apply length_fmap. Qed.

Lemma pcmData_range inputData :
  Forall (λ v, (-32768 ≤ v ≤ 32767)%Z) (Pcm.pcmData inputData).
Proof.
  unfold Pcm.pcmData. apply Forall_fmap, Forall_forall.
  intros x _. apply ToInt16_range.
Qed.

(** Every stored sample is [ToInt16] of the scaled clamp of its input. *)
Lemma pcmData_lookup inputData i x :
  inputData !! i = Some x →
  Pcm.pcmData inputData !! i = Some (Pcm.ToInt16 (Pcm.scale (Pcm.clamp x)))
  ∧ Pcm.clamped (Pcm.clamp x).
Proof.
  intros H. split; [|apply clamp_clamped].
  unfold Pcm.pcmData. by rewrite list_lookup_fmap, H.
Qed.

Lemma buffer_cons v pcm :
  Pcm.buffer (v :: pcm) =
  (v mod 65536 mod 256)%Z :: (v mod 65536 / 256)%Z :: Pcm.buffer pcm.
Proof. reflexivity. Qed.

Lemma buffer_length pcm : length (Pcm.buffer pcm) = (2 * length pcm)%nat.
Proof.
  induction pcm as [|v pcm IH]; [done|].
  rewrite buffer_cons. simpl. rewrite IH. lia.
Qed.

Lemma buffer_bytes pcm : Forall (λ b, (0 ≤ b < 256)%Z) (Pcm.buffer pcm).
Proof.
  induction pcm as [|v pcm IH]; [constructor|].
  rewrite buffer_cons.
  pose proof (Z.mod_pos_bound v 65536 eq_refl).
  apply Forall_cons; split; [apply Z.mod_pos_bound; lia|].
  apply Forall_cons; split; [|exact IH].
  split; [apply Z.div_pos; lia | apply Z.div_lt_upper_bound; lia].
Qed.

(** Little-endian two's complement loses nothing on 16-bit samples. *)
Lemma decode_buffer pcm :
  Forall (λ v, (-32768 ≤ v ≤ 32767)%Z) pcm → Pcm.decode (Pcm.buffer pcm) = pcm.
Proof.
  induction 1 as [|v pcm Hv _ IH]; [done|].
  rewrite buffer_cons. cbn [Pcm.decode]. f_equal; [|exact IH].
  rewrite Z.add_comm, <- Z.div_mod by lia.
  destruct (Z.lt_ge_cases v 0) as [Hneg|Hpos].
  - assert (v mod 65536 = v + 65536)%Z as ->.
    { symmetry. apply Z.mod_unique_pos with (q := (-1)%Z); lia. }
    destruct (Z.leb_spec 32768 (v + 65536)); lia.
  - rewrite Z.mod_small by lia.
    destruct (Z.leb_spec 32768 v); lia.
Qed.

End PcmFacts.

(** ** The voice-activity gate ([processor.onaudioprocess]) *)

Module Gate.

Import Deepgram Scenario.

Lemma onaudioprocess_speech cl inputData w :
  readyState_of (closure_ws cl) (browser w) = Some OPEN →
  Pcm.isSpeechDetected inputData = true →
  sent (browser (onaudioprocess cl inputData w)) =
    sent (browser w) ++ [(closure_ws cl, Pcm.buffer (Pcm.pcmData inputData))]
  ∧ isSpeaking (flags (onaudioprocess cl inputData w)) = true
  ∧ silenceTimeoutRef (refs (onaudioprocess cl inputData w)) = None.
Proof.
  intros Hopen Hspeech. unfold onaudioprocess.
  rewrite decide_True by done. rewrite Hspeech.
  by destruct (silenceTimeoutRef (refs w)) eqn:Href.
Qed.

Lemma onaudioprocess_silence cl inputData w :
  Pcm.isSpeechDetected inputData = false →
  sent (browser (onaudioprocess cl inputData w)) = sent (browser w)
  ∧ flags (onaudioprocess cl inputData w) = flags w.
Proof.
  intros Hquiet. unfold onaudioprocess.
  case_decide; [|done]. rewrite Hquiet.
  destruct (silenceTimeoutRef (refs w)); [done|].
  by destruct (closure_isSpeaking cl).
Qed.

Lemma onaudioprocess_not_open cl inputData w :
  readyState_of (closure_ws cl) (browser w) ≠ Some OPEN →
  onaudioprocess cl inputData w = w.
Proof. intros Hclosed. unfold onaudioprocess. by rewrite decide_False. Qed.

(** C5.  A frame whose RMS exceeds the threshold, arriving while the
    socket is open, is sent as one message of exactly two bytes per sample;
    the bytes are the little-endian 16-bit form of the samples, every
    sample lies in [-32768, 32767], and it is [ToInt16] of the scaled
    value of its input clamped to [-1, 1] (NaN stays NaN and is stored as 0). *)
Theorem speech_frame_sends_pcm16 cl inputData w :
  readyState_of (closure_ws cl) (browser w) = Some OPEN →
  Pcm.isSpeechDetected inputData = true →
  let data := Pcm.buffer (Pcm.pcmData inputData) in
  sent (browser (onaudioprocess cl inputData w)) =
    sent (browser w) ++ [(closure_ws cl, data)]
  ∧ length data = (2 * length inputData)%nat
  ∧ Forall (λ b, 0 ≤ b < 256) data
  ∧ Pcm.decode data = Pcm.pcmData inputData
  ∧ Forall (λ v, -32768 ≤ v ≤ 32767) (Pcm.pcmData inputData)
  ∧ Forall2 (λ x v, v = Pcm.ToInt16 (Pcm.scale (Pcm.clamp x))
                    ∧ Pcm.clamped (Pcm.clamp x))
      inputData (Pcm.pcmData inputData).
Proof.
  intros Hopen Hspeech data.
  split; [by apply onaudioprocess_speech|].
  split; [unfold data; by rewrite PcmFacts.buffer_length, PcmFacts.pcmData_length|].
  split; [apply PcmFacts.buffer_bytes|].
  split; [apply PcmFacts.decode_buffer, PcmFacts.pcmData_range|].
  split; [apply PcmFacts.pcmData_range|].
  unfold Pcm.pcmData. apply Forall2_fmap_r, Forall_Forall2_diag, Forall_forall.
  intros x _. split; [done | apply PcmFacts.clamp_clamped].
Qed.

Lemma speech_frame_sends_pcm16_witness :
  readyState_of 1 (browser recording) = Some OPEN
  ∧ Pcm.isSpeechDetected loud = true
  ∧ sent (browser (onaudioprocess (mkAudioProcess 1 false) loud recording)) =
      [(1%nat, [255; 63; 0; 192; 255; 31; 255; 127])]
  ∧ length (Pcm.buffer (Pcm.pcmData loud)) = 8%nat.
Proof.
  assert (H1 : readyState_of 1 (browser recording) = Some OPEN)
    by (vm_compute; reflexivity).
  assert (H2 : Pcm.isSpeechDetected loud = true) by (vm_compute; reflexivity).
  destruct (speech_frame_sends_pcm16 (mkAudioProcess 1 false) loud recording H1 H2)
    as (Hsent & Hlen & _).
  split; [exact H1|]. split; [exact H2|]. split; [|exact Hlen].
  rewrite Hsent. vm_compute. reflexivity.
Defined.

(** C6.  A frame whose RMS is at most the threshold sends nothing, whatever
    the speaking state and whatever the closure captured. *)
Theorem quiet_frame_sends_nothing cl inputData w :
  (Pcm.rms inputData <=? Pcm.SPEECH_THRESHOLD)%float = true →
  sent (browser (onaudioprocess cl inputData w)) = sent (browser w).
Proof.
  intros Hle. apply onaudioprocess_silence.
  unfold Pcm.isSpeechDetected. by apply FloatFacts.leb_not_gt.
Qed.

Lemma quiet_frame_sends_nothing_witness :
  (Pcm.rms quiet <=? Pcm.SPEECH_THRESHOLD)%float = true
  ∧ sent (browser (onaudioprocess (mkAudioProcess 1 true) quiet recording)) =
      sent (browser recording).
Proof.
  assert (H : (Pcm.rms quiet <=? Pcm.SPEECH_THRESHOLD)%float = true)
    by (vm_compute; reflexivity).
  split; [exact H|].
  exact (quiet_frame_sends_nothing (mkAudioProcess 1 true) quiet recording H).
Defined.

(** C10.  While the socket the callback closed over is not OPEN, a frame
    changes nothing at all: nothing is sent or kept, and neither the
    speaking flag nor the silence timer is touched. *)
Theorem frame_dropped_unless_open cl inputData w :
  readyState_of (closure_ws cl) (browser w) ≠ Some OPEN →
  onaudioprocess cl inputData w = w.
Proof. apply onaudioprocess_not_open. Qed.

Lemma frame_dropped_unless_open_witness :
  readyState_of 1 (browser (step recording (SocketCloses 1))) ≠ Some OPEN
  ∧ onaudioprocess (mkAudioProcess 1 false) loud (step recording (SocketCloses 1))
    = step recording (SocketCloses 1).
Proof.
  assert (H : readyState_of 1 (browser (step recording (SocketCloses 1))) ≠ Some OPEN)
    by (vm_compute; discriminate).
  split; [exact H|].
  exact (frame_dropped_unless_open (mkAudioProcess 1 false) loud _ H).
Defined.

(** *** The timer as the callback runs it *)

(** A frame of speech cancels a pending silence timer. *)
Lemma speech_frame_clears_timer cl inputData w tid :
  readyState_of (closure_ws cl) (browser w) = Some OPEN →
  Pcm.isSpeechDetected inputData = true →
  silenceTimeoutRef (refs w) = Some tid →
  timers (browser (onaudioprocess cl inputData w)) = delete tid (timers (browser w))
  ∧ silenceTimeoutRef (refs (onaudioprocess cl inputData w)) = None
  ∧ isSpeaking (flags (onaudioprocess cl inputData w)) = true.
Proof.
  intros Hopen Hspeech Href. unfold onaudioprocess.
  rewrite decide_True by done. by rewrite Hspeech, Href.
Qed.

(** A quiet frame starts the 800 ms timer when none is pending and the
    captured [isSpeaking] is true; the state's own flag is not consulted. *)
Lemma quiet_frame_starts_timer cl inputData w :
  readyState_of (closure_ws cl) (browser w) = Some OPEN →
  Pcm.isSpeechDetected inputData = false →
  silenceTimeoutRef (refs w) = None →
  closure_isSpeaking cl = true →
  silenceTimeoutRef (refs (onaudioprocess cl inputData w)) = Some (fresh (browser w))
  ∧ timers (browser (onaudioprocess cl inputData w)) =
      <[fresh (browser w) := 800]> (timers (browser w))
  ∧ flags (onaudioprocess cl inputData w) = flags w.
Proof.
  intros Hopen Hquiet Href Hcl. unfold onaudioprocess.
  rewrite decide_True by done. by rewrite Hquiet, Href, Hcl.
Qed.

(** When the timer elapses the state becomes "not speaking". *)
Lemma timer_elapses w tid delay :
  timers (browser w) !! tid = Some delay →
  isSpeaking (flags (step w (TimerElapses tid))) = false
  ∧ silenceTimeoutRef (refs (step w (TimerElapses tid))) = None
  ∧ timers (browser (step w (TimerElapses tid))) = delete tid (timers (browser w)).
Proof. intros Htimer. simpl. by rewrite Htimer. Qed.

(** What a frame does to the refs and the browser does not depend on the
    flags of the state: the callback reads [isSpeaking] from its closure. *)
Lemma onaudioprocess_ignores_flags cl inputData f f' r b :
  refs (onaudioprocess cl inputData (mkWorld f r b)) =
    refs (onaudioprocess cl inputData (mkWorld f' r b))
  ∧ browser (onaudioprocess cl inputData (mkWorld f r b)) =
      browser (onaudioprocess cl inputData (mkWorld f' r b)).
Proof.
  unfold onaudioprocess. simpl. case_decide; [|done].
  destruct (Pcm.isSpeechDetected inputData), (silenceTimeoutRef r); try done.
  by destruct (closure_isSpeaking cl).
Qed.

(** The sending branch is reached only with the socket open. *)
Lemma send_needs_open cl inputData w :
  sent (browser (onaudioprocess cl inputData w)) ≠ sent (browser w) →
  readyState_of (closure_ws cl) (browser w) = Some OPEN.
Proof.
  intros Hsent. destruct (decide (readyState_of (closure_ws cl) (browser w) = Some OPEN))
    as [|Hclosed]; [done|].
  by rewrite (onaudioprocess_not_open cl inputData w Hclosed) in Hsent.
Qed.

End Gate.

(** ** Teardown and failure of the connection *)

Module Lifecycle.

Import Deepgram Resources Scenario.

Lemma ref_set_None : ref_set None = ∅.
Proof. reflexivity. Qed.

Lemma ref_set_Some i : ref_set (Some i) = {[i]}.
Proof. reflexivity. Qed.

(** *** What [disconnect] leaves of each part of the browser *)

Lemma close_socket_fields ws b :
  live_streams (close_socket ws b) = live_streams b
  ∧ contexts (close_socket ws b) = contexts b
  ∧ nodes (close_socket ws b) = nodes b
  ∧ timers (close_socket ws b) = timers b
  ∧ sent (close_socket ws b) = sent b
  ∧ toasts (close_socket ws b) = toasts b.
Proof. unfold close_socket. by repeat case_match. Qed.

Lemma readyState_of_set ws ws' rs b :
  readyState_of ws' (set_readyState ws rs b) =
  if decide (ws = ws') then (λ _, rs) <$> readyState_of ws b
  else readyState_of ws' b.
Proof.
  unfold readyState_of, set_readyState. simpl.
  rewrite lookup_alter. case_decide as E; [subst|done].
  by destruct (sockets b !! ws').
Qed.

(** After [ws.close()] the socket is neither connecting nor open. *)
Lemma close_socket_closes ws b :
  readyState_of ws (close_socket ws b) ≠ Some CONNECTING
  ∧ readyState_of ws (close_socket ws b) ≠ Some OPEN.
Proof.
  unfold close_socket.
  destruct (readyState_of ws b) as [[]|] eqn:E; rewrite ?readyState_of_set,
    ?decide_True, ?E by done; simpl; split; congruence.
Qed.

Lemma disconnect_flags w : flags (disconnect w) = idle_flags.
Proof. reflexivity. Qed.

Lemma disconnect_refs w : refs (disconnect w) = no_refs.
Proof. reflexivity. Qed.

Lemma disconnect_live_streams w :
  live_streams (browser (disconnect w)) =
  live_streams (browser w) ∖ ref_set (streamRef (refs w)).
Proof.
  unfold disconnect. simpl.
  destruct (wsRef (refs w)); rewrite ?(proj1 (close_socket_fields _ _)); simpl;
    destruct (silenceTimeoutRef (refs w)), (streamRef (refs w)); simpl;
    set_solver.
Qed.

Lemma disconnect_contexts w :
  contexts (browser (disconnect w)) =
  contexts (browser w) ∖ ref_set (audioContextRef (refs w)).
Proof.
  unfold disconnect. simpl.
  destruct (wsRef (refs w));
    rewrite ?(proj1 (proj2 (close_socket_fields _ _))); simpl;
    destruct (silenceTimeoutRef (refs w)), (audioContextRef (refs w)); simpl;
    set_solver.
Qed.

Lemma disconnect_nodes w :
  nodes (browser (disconnect w)) =
  nodes (browser w) ∖ (ref_set (processorRef (refs w)) ∪ ref_set (sourceRef (refs w))).
Proof.
  unfold disconnect. simpl.
  destruct (wsRef (refs w));
    rewrite ?(proj1 (proj2 (proj2 (close_socket_fields _ _)))); simpl;
    destruct (silenceTimeoutRef (refs w)), (processorRef (refs w)),
      (sourceRef (refs w)); simpl; set_solver.
Qed.

Lemma disconnect_timers w :
  timers (browser (disconnect w)) =
  match silenceTimeoutRef (refs w) with
  | Some tid => delete tid (timers (browser w))
  | None => timers (browser w)
  end.
Proof.
  unfold disconnect. simpl.
  destruct (wsRef (refs w));
    rewrite ?(proj1 (proj2 (proj2 (proj2 (close_socket_fields _ _))))); simpl;
    by destruct (silenceTimeoutRef (refs w)).
Qed.

Lemma disconnect_toasts w :
  toasts (browser (disconnect w)) = toasts (browser w).
Proof.
  unfold disconnect. simpl.
  destruct (wsRef (refs w));
    rewrite ?(proj2 (proj2 (proj2 (proj2 (proj2 (close_socket_fields _ _)))))); simpl;
    by destruct (silenceTimeoutRef (refs w)).
Qed.

Lemma disconnect_sockets w :
  sockets (browser (disconnect w)) =
  match wsRef (refs w) with
  | Some ws => sockets (close_socket ws (browser w))
  | None => sockets (browser w)
  end.
Proof.
  unfold disconnect. simpl.
  destruct (wsRef (refs w)) as [ws|]; simpl;
    unfold close_socket, readyState_of; simpl;
    destruct (silenceTimeoutRef (refs w)); simpl; by repeat case_match.
Qed.

Lemma disconnect_readyState w ws :
  wsRef (refs w) = Some ws →
  readyState_of ws (browser (disconnect w)) ≠ Some CONNECTING
  ∧ readyState_of ws (browser (disconnect w)) ≠ Some OPEN.
Proof.
  intros Hws. pose proof (close_socket_closes ws (browser w)) as H.
  unfold readyState_of in *. by rewrite disconnect_sockets, Hws.
Qed.

(** A second [disconnect] finds every ref null and the flags idle. *)
Lemma disconnect_no_refs f b :
  disconnect (mkWorld f no_refs b) = mkWorld idle_flags no_refs b.
Proof. unfold disconnect. simpl. by destruct b. Qed.

(** C9.  From every state, whatever subset of the timer, processor, source
    node, audio context, microphone stream and socket refs is set,
    [disconnect] releases what the refs point at, nulls every ref, sets
    the three flags to false, and a second [disconnect] changes nothing. *)
Theorem disconnect_releases_and_is_idempotent w :
  flags (disconnect w) = idle_flags
  ∧ refs (disconnect w) = no_refs
  ∧ released (refs w) (browser (disconnect w))
  ∧ disconnect (disconnect w) = disconnect w.
Proof.
  split; [done|]. split; [done|]. split.
  - unfold released.
    rewrite disconnect_timers, disconnect_nodes, disconnect_contexts,
      disconnect_live_streams.
    split.
    { destruct (silenceTimeoutRef (refs w)); simpl; [|set_solver].
      rewrite dom_delete_L. set_solver. }
    repeat (split; [set_solver|]).
    destruct (wsRef (refs w)) as [ws|] eqn:Hws; [|done].
    by apply disconnect_readyState.
  - destruct (disconnect w) as [f r b] eqn:E.
    assert (r = no_refs) as -> by (by rewrite <- (disconnect_refs w), E).
    assert (f = idle_flags) as -> by (by rewrite <- (disconnect_flags w), E).
    apply disconnect_no_refs.
Qed.


(** *** The ownership invariant *)

Lemma timers_empty_of_dom (t : gmap nat Z) : dom t ⊆ ∅ → t = ∅.
Proof. intros H. apply dom_empty_iff_L. set_solver. Qed.

Lemma timers_delete_of_dom (t : gmap nat Z) tid : dom t ⊆ {[tid]} → delete tid t = ∅.
Proof. intros H. apply dom_empty_iff_L. rewrite dom_delete_L. set_solver. Qed.

Lemma sockets_set_readyState ws rs b ws' s' :
  sockets (set_readyState ws rs b) !! ws' = Some s' →
  ∃ s, sockets b !! ws' = Some s
       ∧ (ws' = ws ∧ readyState s' = rs ∨ ws' ≠ ws ∧ s' = s).
Proof.
  unfold set_readyState. simpl. rewrite lookup_alter.
  case_decide as E.
  - subst ws'. destruct (sockets b !! ws) as [s|]; simpl; [|done].
    intros [= <-]. exists s. split; [done|]. by left.
  - intros H. exists s'. split; [done|]. right. by split.
Qed.

(** With every live resource owned by its ref, [disconnect] leaves
    nothing alive. *)
Lemma disconnect_clean w : owned w → clean (disconnect w).
Proof.
  intros (Hst & Hctx & Hnd & Htm & Hws & _).
  split; [done|]. split; [done|]. unfold no_resource.
  rewrite disconnect_live_streams, disconnect_contexts, disconnect_nodes,
    disconnect_timers, disconnect_sockets.
  repeat (split; [set_solver|]). split.
  - destruct (silenceTimeoutRef (refs w)); simpl in Htm.
    + by apply timers_delete_of_dom.
    + by apply timers_empty_of_dom.
  - intros ws' s' Hs' Hconn.
    destruct (wsRef (refs w)) as [ws|] eqn:Eref.
    + unfold close_socket in Hs'.
      destruct (readyState_of ws (browser w)) as [rs|] eqn:Ers.
      * assert (Hcase : rs = CONNECTING ∨ rs = OPEN ∨ rs = CLOSING ∨ rs = CLOSED)
          by (destruct rs; auto).
        destruct Hcase as [-> | [-> | Hrest]].
        1,2: apply sockets_set_readyState in Hs' as (s & Hs & [[-> Hrs] | [Hne ->]]);
             [destruct Hconn; congruence | pose proof (Hws _ _ Hs Hconn); congruence].
        assert (Hs : sockets (browser w) !! ws' = Some s')
          by (destruct Hrest as [-> | ->]; exact Hs').
        pose proof (Hws _ _ Hs Hconn) as [= <-].
        unfold readyState_of in Ers. rewrite Hs in Ers. simpl in Ers.
        destruct Hconn, Hrest; congruence.
      * pose proof (Hws _ _ Hs' Hconn) as [= <-].
        unfold readyState_of in Ers. by rewrite Hs' in Ers.
    + pose proof (Hws _ _ Hs' Hconn). congruence.
Qed.

Lemma clean_owned w : clean w → owned w.
Proof.
  intros (_ & Hrefs & Hst & Hctx & Hnd & Htm & Hws).
  unfold owned. rewrite Hrefs, Hst, Hctx, Hnd, Htm. simpl.
  repeat (split; [set_solver|]). split.
  - intros ws s Hs Hconn. by destruct (Hws ws s Hs).
  - by intros ws s Hs Hconn.
Qed.


(** Ownership looks at the sockets only through their state: it survives
    any change that leaves the other resources alone and makes no socket
    more connected than it was. *)
Lemma owned_weaken f r b f' b' :
  owned (mkWorld f r b) →
  live_streams b' = live_streams b → contexts b' = contexts b →
  nodes b' = nodes b → timers b' = timers b →
  (∀ ws' s', sockets b' !! ws' = Some s' →
     ∃ s, sockets b !! ws' = Some s ∧ (connected s' → connected s)
          ∧ (readyState s' = CONNECTING → readyState s = CONNECTING)) →
  owned (mkWorld f' r b').
Proof.
  intros (Hst & Hctx & Hnd & Htm & Hws & Hcon) E1 E2 E3 E4 Hsock.
  unfold owned in *. simpl in *. rewrite E1, E2, E3, E4.
  repeat (split; [done|]). split.
  - intros ws' s' Hs' Hconn. destruct (Hsock _ _ Hs') as (s & Hs & Hc & _).
    exact (Hws ws' s Hs (Hc Hconn)).
  - intros ws' s' Hs' Hconn. destruct (Hsock _ _ Hs') as (s & Hs & _ & Hc).
    exact (Hcon ws' s Hs (Hc Hconn)).
Qed.

Lemma sockets_same (b b' : Browser) :
  sockets b' = sockets b →
  ∀ ws' s', sockets b' !! ws' = Some s' →
    ∃ s, sockets b !! ws' = Some s ∧ (connected s' → connected s)
         ∧ (readyState s' = CONNECTING → readyState s = CONNECTING).
Proof. intros -> ws' s' Hs'. by exists s'. Qed.

Lemma sockets_closed ws (b : Browser) :
  ∀ ws' s', sockets (set_readyState ws CLOSED b) !! ws' = Some s' →
    ∃ s, sockets b !! ws' = Some s ∧ (connected s' → connected s)
         ∧ (readyState s' = CONNECTING → readyState s = CONNECTING).
Proof.
  intros ws' s' Hs'.
  apply sockets_set_readyState in Hs' as (s & Hs & [[-> Hrs] | [Hne ->]]);
    exists s; (split; [done|]); [|done].
  unfold connected. rewrite Hrs. split; [intros []|]; congruence.
Qed.

Lemma owned_onaudioprocess cl inputData w :
  owned w → owned (onaudioprocess cl inputData w).
Proof.
  intros Hown. unfold onaudioprocess.
  case_decide; [|done].
  destruct w as [f r b]. simpl.
  destruct (Pcm.isSpeechDetected inputData).
  - destruct (silenceTimeoutRef r) as [tid|] eqn:Et.
    + destruct Hown as (Hst & Hctx & Hnd & Htm & Hws & Hcon).
      unfold owned in *. simpl in *. rewrite Et in Htm.
      repeat (split; [done|]).
      split; [rewrite dom_delete_L; simpl in Htm; set_solver|]. by split.
    + eapply owned_weaken; [exact Hown|done..|by apply sockets_same].
  - destruct (silenceTimeoutRef r) as [tid|] eqn:Et; [done|].
    destruct (closure_isSpeaking cl); [|done].
    destruct Hown as (Hst & Hctx & Hnd & Htm & Hws & Hcon).
    unfold owned in *. simpl in *. rewrite Et in Htm.
    repeat (split; [done|]).
    split; [rewrite dom_insert_L; simpl in Htm; set_solver|]. by split.
Qed.

Lemma owned_step w e : owned w → owned (step w e).
Proof.
  intros Hown. destruct e as [ws|ws|ws|p inputData|tid]; simpl.
  - (* the socket opens: the audio graph is built *)
    destruct (sockets (browser w) !! ws) as [s|] eqn:Es; [|done].
    case_decide as Ers; [|done].
    destruct Hown as (Hst & Hctx & Hnd & Htm & Hws & Hcon).
    destruct (Hcon ws s Es Ers) as [Hc0 Hn0].
    assert (Href : wsRef (refs w) = Some ws) by (apply (Hws ws s Es); by left).
    unfold owned, ws_onopen, startRecording. simpl.
    rewrite Hc0, Hn0.
    split; [done|]. split; [set_solver|]. split; [set_solver|]. split; [done|].
    split.
    + intros ws' s' Hs' Hconn.
      apply sockets_set_readyState in Hs' as (s0 & Hs0 & [[-> _] | [Hne ->]]);
        [done | by apply (Hws ws' s0)].
    + intros ws' s' Hs' Hconn.
      apply sockets_set_readyState in Hs' as (s0 & Hs0 & [[-> Hrs] | [Hne ->]]);
        [congruence|].
      assert (wsRef (refs w) = Some ws') by (apply (Hws ws' s0 Hs0); by left).
      congruence.
  - (* the socket fails: [disconnect] *)
    destruct (sockets (browser w) !! ws) as [s|] eqn:Es; [|done].
    case_decide as Ers; [done|].
    apply clean_owned, disconnect_clean. destruct w as [f r b].
    eapply owned_weaken; [exact Hown|done..|apply sockets_closed].
  - (* the socket closes *)
    destruct (sockets (browser w) !! ws) as [s|] eqn:Es; [|done].
    destruct w as [f r b].
    eapply owned_weaken; [exact Hown|done..|apply sockets_closed].
  - destruct (handlers (browser w) !! p) as [cl|]; [|done].
    case_decide; [|done]. by apply owned_onaudioprocess.
  - (* the silence timer elapses *)
    destruct (timers (browser w) !! tid) as [delay|] eqn:Et; [|done].
    destruct Hown as (Hst & Hctx & Hnd & Htm & Hws & Hcon).
    assert (Hin : tid ∈ dom (timers (browser w))) by (apply elem_of_dom; eauto).
    unfold owned, silence_elapsed. simpl.
    repeat (split; [done|]).
    split; [|by split]. rewrite dom_delete_L.
    intros x [Hx Hne]%elem_of_difference.
    destruct (silenceTimeoutRef (refs w)); simpl in Htm;
      apply Htm in Hx, Hin; set_solver.
Qed.


Lemma owned_run w events : owned w → owned (run w events).
Proof.
  revert w. induction events as [|e events IH]; intros w Hown; [done|].
  apply IH. by apply owned_step.
Qed.

(** *** The socket stays connected until it fails or closes *)

Lemma onaudioprocess_sockets cl inputData w :
  sockets (browser (onaudioprocess cl inputData w)) = sockets (browser w).
Proof.
  unfold onaudioprocess. case_decide; [|done].
  destruct (Pcm.isSpeechDetected inputData), (silenceTimeoutRef (refs w));
    try done.
  by destruct (closure_isSpeaking cl).
Qed.

Lemma alive_step ws w e :
  keeps_socket e = true → alive ws w → alive ws (step w e).
Proof.
  intros Hkeep (s & Hs & Hconn).
  destruct e as [ws'|ws'|ws'|p inputData|tid]; try discriminate; simpl.
  - destruct (sockets (browser w) !! ws') as [s'|] eqn:Es'; [|by exists s].
    case_decide as Ers; [|by exists s].
    unfold alive, ws_onopen, startRecording, set_readyState. simpl.
    rewrite lookup_alter. case_decide as E.
    + subst ws'. rewrite Hs. simpl. eexists. split; [done|]. by right.
    + by exists s.
  - destruct (handlers (browser w) !! p) as [cl|]; [|by exists s].
    case_decide; [|by exists s].
    unfold alive. rewrite onaudioprocess_sockets. by exists s.
  - destruct (timers (browser w) !! tid); by exists s.
Qed.

Lemma alive_run ws w events :
  forallb keeps_socket events = true → alive ws w → alive ws (run w events).
Proof.
  revert w. induction events as [|e events IH]; intros w Hkeep Halive; [done|].
  simpl in Hkeep. apply andb_prop in Hkeep as [He Hrest].
  apply IH; [done|]. by apply alive_step.
Qed.

(** *** [connect] from the clean state *)

Lemma connect_granted rd key w :
  clean w → Js.not_string key = false →
  owned (connect rd key Granted Constructed w).1
  ∧ alive (new_socket w) (connect rd key Granted Constructed w).1
  ∧ (connect rd key Granted Constructed w).2 = Fulfilled ().
Proof.
  intros (Hf & Hr & Hst & Hctx & Hnd & Htm & Hws) Hkey.
  unfold connect. rewrite Hkey. simpl. split; [|split; [|done]].
  - unfold owned. simpl. rewrite Hr, Hst, Hctx, Hnd, Htm. simpl.
    split; [set_solver|]. repeat (split; [done|]). split.
    + intros ws s Hs Hconn. apply lookup_insert_Some in Hs as [[<- _]|[_ Hs]];
        [done|]. by destruct (Hws ws s Hs).
    + done.
  - unfold alive, new_socket. simpl. rewrite lookup_insert_eq.
    eexists. split; [done|]. by left.
Qed.

Lemma connect_denied rd key message socket w :
  clean w → Js.not_string key = false →
  clean (connect rd key (Denied message) socket w).1
  ∧ toasts (browser (connect rd key (Denied message) socket w).1) =
      toasts (browser w) ++ [microphone_error message]
  ∧ (connect rd key (Denied message) socket w).2 = Rejected message.
Proof.
  intros Hclean Hkey. unfold connect. rewrite Hkey. simpl.
  by destruct Hclean as (Hf & Hr & Hres).
Qed.

(** A failure the [catch] block does not clean up after: when the socket
    constructor throws, it tells the user and rejects, but the stream
    acquired just before stays referenced and running. *)
Lemma constructor_exception_keeps_stream rd key message w :
  Js.not_string key = false →
  streamRef (refs (connect rd key Granted (ConstructorThrows message) w).1)
    = Some (fresh (browser w))
  ∧ fresh (browser w)
      ∈ live_streams (browser (connect rd key Granted (ConstructorThrows message) w).1)
  ∧ (connect rd key Granted (ConstructorThrows message) w).2 = Rejected message.
Proof.
  intros Hkey. unfold connect. rewrite Hkey. simpl.
  split; [done|]. split; [set_solver|done].
Qed.

(** The socket a session owns fails: the user is told and nothing
    remains. *)
Lemma socket_failure ws w :
  owned w → alive ws w →
  clean (step w (SocketFails ws))
  ∧ toasts (browser (step w (SocketFails ws))) =
      toasts (browser w) ++ [connection_error].
Proof.
  intros Hown (s & Hs & Hconn). simpl. rewrite Hs.
  rewrite decide_False by (destruct Hconn; congruence).
  unfold ws_onerror. split.
  - apply disconnect_clean. destruct w as [f r b].
    eapply owned_weaken; [exact Hown|done..|apply sockets_closed].
  - by rewrite disconnect_toasts.
Qed.

(** The failure paths that do clean up.  An execution of [connect] from
    the clean disconnected state that fails by a rejected microphone
    request (nothing was acquired yet) or by a failure of the socket it
    created, while connecting or later ([ws.onerror] calls [disconnect()]),
    ends in the clean disconnected state: flags idle, every ref null, no
    running track, no audio context or node, no timer, no socket
    connecting or open.  The user is told by a toast, and on a rejected
    microphone request the promise rejects with the error. *)
Theorem failed_connect_leaves_clean rd key w0 f :
  clean w0 → Js.not_string key = false → well_formed f = true →
  clean (failed_connect rd key w0 f).1
  ∧ last (toasts (browser (failed_connect rd key w0 f).1)) = Some (failure_toast f)
  ∧ (failed_connect rd key w0 f).2 =
      match f with
      | MicrophoneDenied message => Rejected message
      | ConnectionFails _ => Fulfilled ()
      end.
Proof.
  intros Hclean Hkey Hwf. destruct f as [message|before];
    unfold failed_connect, failure_toast.
  - destruct (connect_denied rd key message Constructed w0 Hclean Hkey)
      as (Hc & Ht & Hp).
    split; [done|]. split; [|done]. rewrite Ht. apply last_snoc.
  - destruct (connect_granted rd key w0 Hclean Hkey) as (Hown & Halive & Hp).
    destruct (connect rd key Granted Constructed w0) as [w p]. cbn [fst snd] in *.
    unfold run. rewrite fold_left_app. cbn [fold_left]. fold (run w before).
    destruct (socket_failure (new_socket w0) (run w before)) as [Hc Ht];
      [by apply owned_run | by apply alive_run |].
    split; [done|]. split; [|done]. rewrite Ht. apply last_snoc.
Qed.


Lemma clean_initial : clean initial.
Proof.
  split; [done|]. split; [done|]. repeat (split; [done|]).
  apply map_Forall_empty.
Qed.

Lemma failed_connect_leaves_clean_witness :
  clean initial
  ∧ clean (failed_connect (render_of initial) (Some "key"%string) initial
             fails_while_recording).1
  ∧ clean (failed_connect (render_of initial) (Some "key"%string) initial
             denied).1.
Proof.
  split; [exact clean_initial|]. split.
  - exact (proj1 (failed_connect_leaves_clean (render_of initial)
      (Some "key"%string) initial fails_while_recording
      clean_initial eq_refl eq_refl)).
  - exact (proj1 (failed_connect_leaves_clean (render_of initial)
      (Some "key"%string) initial denied clean_initial eq_refl eq_refl)).
Defined.

(** C3 (defect).  Not every failing [connect()] leaves the clean
    disconnected state.  The [catch] block of [connect] shows the toast and
    throws the error on, but unlike [ws.onerror] it does not call
    [disconnect()].  So, from any state: when [new WebSocket] throws, the
    caller is told and the promise rejects, yet the microphone stream
    acquired just before stays running and referenced by [streamRef]; and
    when the microphone is denied while an earlier stream is still running
    (after a remote close, which releases nothing), that stream keeps
    running.  In both cases the state is not clean. *)
Theorem failed_connect_keeps_stream rd key w0 :
  Js.not_string key = false →
  (∀ message,
     (connect rd key Granted (ConstructorThrows message) w0).2 = Rejected message
     ∧ last (toasts (browser (connect rd key Granted (ConstructorThrows message) w0).1))
       = Some (microphone_error message)
     ∧ streamRef (refs (connect rd key Granted (ConstructorThrows message) w0).1)
       = Some (fresh (browser w0))
     ∧ fresh (browser w0)
         ∈ live_streams (browser (connect rd key Granted (ConstructorThrows message) w0).1)
     ∧ ¬ clean (connect rd key Granted (ConstructorThrows message) w0).1)
  ∧ (∀ message socket s0,
       s0 ∈ live_streams (browser w0) →
       (connect rd key (Denied message) socket w0).2 = Rejected message
       ∧ last (toasts (browser (connect rd key (Denied message) socket w0).1))
         = Some (microphone_error message)
       ∧ s0 ∈ live_streams (browser (connect rd key (Denied message) socket w0).1)
       ∧ ¬ clean (connect rd key (Denied message) socket w0).1).
Proof.
  intros Hkey. split.
  - intros message.
    destruct (constructor_exception_keeps_stream rd key message w0 Hkey)
      as (Href & Hlive & Hp).
    split; [done|]. split.
    { unfold connect. rewrite Hkey. simpl. apply last_snoc. }
    split; [done|]. split; [done|].
    intros (_ & Hrefs & _). rewrite Hrefs in Href. discriminate.
  - intros message socket s0 Hs0. unfold connect. rewrite Hkey. simpl.
    split; [done|]. split; [apply last_snoc|]. split; [done|].
    intros (_ & _ & Hnone & _). simpl in Hnone. set_solver.
Qed.

Lemma failed_connect_keeps_stream_witness :
  ¬ clean (connect (render_of initial) (Some "bad key"%string) Granted
             (ConstructorThrows "SyntaxError") initial).1
  ∧ 0%nat ∈ live_streams (browser (step recording (SocketCloses 1)))
  ∧ ¬ clean (connect (render_of (step recording (SocketCloses 1)))
               (Some "key"%string) (Denied "Permission denied") Constructed
               (step recording (SocketCloses 1))).1.
Proof.
  assert (H : 0%nat ∈ live_streams (browser (step recording (SocketCloses 1))))
    by (by vm_compute).
  split; [|split; [exact H|]].
  - destruct (proj1 (failed_connect_keeps_stream (render_of initial)
                       (Some "bad key"%string) initial eq_refl) "SyntaxError"%string)
      as (_ & _ & _ & _ & Hnot).
    exact Hnot.
  - destruct (proj2 (failed_connect_keeps_stream
                       (render_of (step recording (SocketCloses 1)))
                       (Some "key"%string) (step recording (SocketCloses 1)) eq_refl)
                    "Permission denied"%string Constructed 0%nat H)
      as (_ & _ & _ & Hnot).
    exact Hnot.
Defined.

(** *** The silence timer and the captured [isSpeaking] *)

(** A callback that captured [isSpeaking = false] never starts the silence
    timer, and never takes the speaking state back. *)
Lemma stale_onaudioprocess cl inputData w :
  closure_isSpeaking cl = false →
  silenceTimeoutRef (refs w) = None →
  silenceTimeoutRef (refs (onaudioprocess cl inputData w)) = None
  ∧ timers (browser (onaudioprocess cl inputData w)) = timers (browser w)
  ∧ handlers (browser (onaudioprocess cl inputData w)) = handlers (browser w)
  ∧ (isSpeaking (flags w) = true →
     isSpeaking (flags (onaudioprocess cl inputData w)) = true).
Proof.
  intros Hcl Href. unfold onaudioprocess.
  case_decide; [|done].
  destruct (Pcm.isSpeechDetected inputData); rewrite Href; [done|].
  by rewrite Hcl.
Qed.

Lemma stuck_step w e : audio_or_timer e = true → stuck w → stuck (step w e).
Proof.
  intros He (Hsp & Href & Htm & Hcl).
  destruct e as [ws|ws|ws|p inputData|tid]; try discriminate; simpl.
  - destruct (handlers (browser w) !! p) as [cl|] eqn:Ecl; [|done].
    case_decide; [|done].
    destruct (stale_onaudioprocess cl inputData w (Hcl p cl Ecl) Href)
      as (H1 & H2 & H3 & H4).
    unfold stuck. rewrite H1, H2, H3. auto.
  - by rewrite Htm, lookup_empty.
Qed.

Lemma stuck_run w events :
  forallb audio_or_timer events = true → stuck w → stuck (run w events).
Proof.
  revert w. induction events as [|e events IH]; intros w He Hw; [done|].
  simpl in He. apply andb_prop in He as [He Hrest].
  apply IH; [done|]. by apply stuck_step.
Qed.

Lemma stuck_speaking : stuck speaking.
Proof.
  split; [by vm_compute|]. split; [by vm_compute|]. split; [by vm_compute|].
  assert (handlers (browser speaking) = {[4%nat := mkAudioProcess 1 false]})
    as -> by (by vm_compute).
  by apply map_Forall_singleton.
Qed.

(** C2 (defect).  In a session started from the idle state the callback
    tests the [isSpeaking] constant of the render that called [connect],
    which is false.  After a frame of speech has set the state to
    "speaking", frames below the threshold start no timer, so no timer is
    ever pending and the state stays "speaking" whatever audio follows and
    however much time passes. *)
Theorem speaking_never_times_out events :
  forallb audio_or_timer events = true →
  isSpeaking (flags (run speaking events)) = true
  ∧ silenceTimeoutRef (refs (run speaking events)) = None
  ∧ timers (browser (run speaking events)) = ∅.
Proof.
  intros He. destruct (stuck_run speaking events He stuck_speaking)
    as (H1 & H2 & H3 & _). done.
Qed.

Lemma speaking_never_times_out_witness :
  isSpeaking (flags speaking) = true
  ∧ (Pcm.rms quiet <=? Pcm.SPEECH_THRESHOLD)%float = true
  ∧ isSpeaking (flags (run speaking [AudioFrame 4 quiet; TimerElapses 5;
                                     AudioFrame 4 quiet])) = true
  ∧ timers (browser (run speaking [AudioFrame 4 quiet; TimerElapses 5;
                                   AudioFrame 4 quiet])) = ∅.
Proof.
  split; [by vm_compute|]. split; [by vm_compute|].
  destruct (speaking_never_times_out
              [AudioFrame 4 quiet; TimerElapses 5; AudioFrame 4 quiet] eq_refl)
    as (H1 & _ & H3).
  by split.
Defined.

End Lifecycle.

(** ** The transcript router *)

Module Router.

Import Index Cases.

(** C4.  A final transcript appends exactly its entry to the log, empties
    the interim slot and issues exactly one sentiment request, for the
    entry's text. *)
Theorem final_transcript_routed transcript s :
  isFinal transcript = true →
  transcripts (handleTranscript transcript s).1 = transcripts s ++ [transcript]
  ∧ length (transcripts (handleTranscript transcript s).1) = S (length (transcripts s))
  ∧ interimTranscript (handleTranscript transcript s).1 = EmptyString
  ∧ (handleTranscript transcript s).2 = [text transcript].
Proof.
  intros Hfinal. unfold handleTranscript. rewrite Hfinal. simpl.
  rewrite length_app. simpl. repeat split; [lia].
Qed.

Lemma final_transcript_routed_witness :
  isFinal first_final = true
  ∧ transcripts (handleTranscript first_final initial).1 = [first_final]
  ∧ (handleTranscript first_final initial).2 = ["really really good"%string].
Proof.
  destruct (final_transcript_routed first_final initial eq_refl)
    as (H1 & _ & _ & H4).
  split; [reflexivity|]. by split.
Defined.

(** An interim transcript only replaces the interim slot. *)
Lemma interim_transcript_routed transcript s :
  isFinal transcript = false →
  transcripts (handleTranscript transcript s).1 = transcripts s
  ∧ interimTranscript (handleTranscript transcript s).1 = text transcript
  ∧ (handleTranscript transcript s).2 = [].
Proof. intros Hint. unfold handleTranscript. by rewrite Hint. Qed.

(** *** Keyword accumulation *)

Lemma includes_true prev kw : Js.includes prev kw = true ↔ kw ∈ prev.
Proof. unfold Js.includes. apply bool_decide_eq_true. Qed.

Lemma includes_false prev kw : Js.includes prev kw = false ↔ kw ∉ prev.
Proof. unfold Js.includes. apply bool_decide_eq_false. Qed.

(** Nothing is removed or moved: the old accumulator is a prefix of the
    new one. *)
Lemma accumulate_prefix kws prev : prev `prefix_of` accumulate kws prev.
Proof. unfold accumulate. by apply prefix_app_r. Qed.

Lemma accumulate_keeps kws prev kw : kw ∈ prev → kw ∈ accumulate kws prev.
Proof. intros H. unfold accumulate. apply elem_of_app. by left. Qed.

Lemma accumulate_elem kws prev kw :
  kw ∈ accumulate kws prev ↔ kw ∈ prev ∨ kw ∈ kws.
Proof.
  unfold accumulate. rewrite elem_of_app, list_elem_of_filter, includes_false.
  destruct (decide (kw ∈ prev)); naive_solver.
Qed.

Lemma entries_app kw l1 l2 : entries kw (l1 ++ l2) = (entries kw l1 + entries kw l2)%nat.
Proof. unfold entries. by rewrite filter_app, length_app. Qed.

Lemma entries_absent kw l : kw ∉ l → entries kw l = 0%nat.
Proof.
  intros Hnot. unfold entries. induction l as [|x l IH]; [done|].
  rewrite filter_cons. apply not_elem_of_cons in Hnot as [Hne Hl].
  rewrite decide_False by done. by apply IH.
Qed.

(** A keyword the accumulator already holds gets no further entry. *)
Lemma accumulate_present kws prev kw :
  kw ∈ prev → entries kw (accumulate kws prev) = entries kw prev.
Proof.
  intros Hin. unfold accumulate. rewrite entries_app.
  rewrite (entries_absent kw (filter _ kws)); [lia|].
  rewrite list_elem_of_filter, includes_false. tauto.
Qed.

(** Merging the same result a second time changes nothing. *)
Lemma accumulate_idempotent kws prev :
  accumulate kws (accumulate kws prev) = accumulate kws prev.
Proof.
  unfold accumulate at 1.
  assert (filter (λ kw, Js.includes (accumulate kws prev) kw = false) kws = [])
    as ->; [|by rewrite app_nil_r].
  destruct (filter _ kws) as [|kw rest] eqn:E; [done|].
  assert (Hkw : kw ∈ filter (λ kw, Js.includes (accumulate kws prev) kw = false) kws)
    by (rewrite E; left).
  apply list_elem_of_filter in Hkw as [Hnot%includes_false Hin].
  destruct Hnot. apply accumulate_elem. by right.
Qed.

(** The accumulator is duplicate-free as long as no single result repeats
    a keyword. *)
Lemma accumulate_NoDup kws prev :
  NoDup prev → NoDup kws → NoDup (accumulate kws prev).
Proof.
  intros Hprev Hkws. unfold accumulate. apply NoDup_app.
  split; [done|]. split; [|by apply NoDup_filter].
  intros kw Hin. rewrite list_elem_of_filter, includes_false. tauto.
Qed.

(** C8 (defect).  Incoming keywords are compared with the old accumulator
    only, not with each other: a result that repeats a keyword puts it in
    twice, and later merges of that keyword leave both entries.  Here the
    first final transcript is "really really good" and its sentiment call
    fails, so the hook's fallback supplies "really" twice; the second
    result supplies it again. *)
Theorem repeated_keyword_kept_twice :
  keywords (run initial two_finals).1 = ["really"; "really"]%string
  ∧ entries "really" (keywords (run initial two_finals).1) = 2%nat
  ∧ accumulate ["really"; "really"]%string [] = ["really"; "really"]%string.
Proof. by vm_compute. Qed.

End Router.

(** ** The client-side fallback of [analyzeSentiment] *)

Module Fallback.

Import SentimentHook Cases.

Lemma split_not_nil sep s : Js.split sep s ≠ [].
Proof.
  destruct s as [|c rest]; simpl; [done|].
  destruct (Ascii.eqb c sep); [done|]. by destruct (Js.split sep rest).
Qed.

Lemma join_cons sep w fields :
  fields ≠ [] →
  Js.join sep (w :: fields) = (w ++ String sep (Js.join sep fields))%string.
Proof. by destruct fields. Qed.

(** [split] loses nothing: joining the fields gives the text back. *)
Lemma join_split sep s : Js.join sep (Js.split sep s) = s.
Proof.
  induction s as [|c rest IH]; [done|]. simpl.
  pose proof (split_not_nil sep rest) as Hne.
  destruct (Ascii.eqb c sep) eqn:E.
  - apply Ascii.eqb_eq in E as ->. by rewrite join_cons, IH.
  - destruct (Js.split sep rest) as [|w ws]; [done|].
    destruct ws as [|w' ws]; [simpl in *; by rewrite IH|].
    rewrite join_cons in * by done. by rewrite <- IH.
Qed.

(** No field contains the separator. *)
Lemma split_free_of sep s : Forall (Js.free_of sep) (Js.split sep s).
Proof.
  induction s as [|c rest IH]; simpl; [by repeat constructor|].
  destruct (Ascii.eqb c sep) eqn:E; [by constructor|].
  apply Ascii.eqb_neq in E.
  destruct (Js.split sep rest) as [|w ws]; [by repeat constructor|].
  apply Forall_cons in IH as [Hw Hws]. by repeat constructor.
Qed.

Lemma long_words_sample :
  long_words "I feel really happy today, everything is going great!" =
  ["really"; "happy"; "today,"]%string.
Proof. by vm_compute. Qed.

Lemma long_words_length t : (length (long_words t) ≤ 3)%nat.
Proof. unfold long_words, Js.slice0. rewrite length_take. lia. Qed.

(** Every keyword is a field of the text between spaces, longer than four
    characters. *)
Lemma long_words_fields t :
  Forall (λ w, (4 < String.length w)%nat ∧ Js.free_of " " w ∧ w ∈ Js.split " " t)
    (long_words t).
Proof.
  apply Forall_forall. intros w Hw. unfold long_words, Js.slice0 in Hw.
  apply elem_of_take in Hw as (i & Hw & _).
  apply list_elem_of_lookup_2, list_elem_of_filter in Hw as [Hlen Hin].
  split; [done|]. split; [|done].
  by apply (proj1 (Forall_forall _ _) (split_free_of " " t)).
Qed.

(** There is no keyword exactly when no field is longer than four
    characters. *)
Lemma long_words_nil t :
  long_words t = [] ↔ Forall (λ w, (String.length w ≤ 4)%nat) (Js.split " " t).
Proof.
  unfold long_words, Js.slice0. split.
  - intros Hnil. apply Forall_forall. intros w Hw.
    destruct (decide (4 < String.length w)%nat) as [Hlong|]; [|lia].
    assert (Hin : w ∈ filter (λ w, (4 < String.length w)%nat) (Js.split " " t))
      by (by apply list_elem_of_filter).
    destruct (filter _ (Js.split " " t)); [by apply elem_of_nil in Hin | done].
  - intros Hall.
    destruct (filter _ (Js.split " " t)) as [|w ws] eqn:E; [done|].
    assert (Hin : w ∈ filter (λ w, (4 < String.length w)%nat) (Js.split " " t))
      by (rewrite E; left).
    apply list_elem_of_filter in Hin as [Hlong Hin].
    pose proof (proj1 (Forall_forall _ _) Hall w Hin). simpl in *. lia.
Qed.

(** A text without a word of five characters gets no keyword. *)
Lemma short_words_give_no_keyword : ¬ nonempty_fallback offline "so sad".
Proof. intros (r & Hr & _ & _ & Hkw). vm_compute in Hr. by injection Hr as <-. Qed.

(** C7 (amended).  When the sentiment call fails, [analyzeSentiment]
    still fulfils its promise, with label neutral, score 0.5, mood
    "undetermined" and as keywords the first three (or fewer) of the
    text's fields between single spaces that are longer than four
    characters; the list is empty exactly when the text has no such field.
    The user is shown one toast. *)
Theorem failed_call_gives_fallback invoke t :
  call_failed (invoke t) = true →
  ∃ r, promise (analyzeSentiment invoke t) = Fulfilled (Some r)
       ∧ sentiment_label r = neutral
       ∧ sentiment_score r = 0.5%float
       ∧ mood r = "undetermined"%string
       ∧ keywords r =
           take 3 (filter (λ w, (4 < String.length w)%nat) (Js.split " " t))
       ∧ (length (keywords r) ≤ 3)%nat
       ∧ Forall (λ w, (4 < String.length w)%nat ∧ Js.free_of " " w
                       ∧ w ∈ Js.split " " t) (keywords r)
       ∧ Js.join " " (Js.split " " t) = t
       ∧ (keywords r = [] ↔
          Forall (λ w, (String.length w ≤ 4)%nat) (Js.split " " t))
       ∧ toasts (analyzeSentiment invoke t) = [analysis_error].
Proof.
  intros Hfail. exists (fallback t).
  assert (Hcall : analyzeSentiment invoke t =
                  mkCall (Fulfilled (Some (fallback t))) [analysis_error] [true; false]).
  { unfold analyzeSentiment. by destruct (invoke t) as [data [e|]|reason]. }
  rewrite Hcall. simpl.
  repeat (split; [done|]).
  split; [apply long_words_length|]. split; [apply long_words_fields|].
  split; [apply join_split|]. split; [apply long_words_nil | done].
Qed.

Lemma failed_call_gives_fallback_witness :
  call_failed (offline "I feel really happy today") = true
  ∧ ∃ r, promise (analyzeSentiment offline "I feel really happy today")
           = Fulfilled (Some r)
         ∧ keywords r = ["really"; "happy"; "today"]%string.
Proof.
  split; [reflexivity|].
  destruct (failed_call_gives_fallback offline "I feel really happy today" eq_refl)
    as (r & Hr & _ & _ & _ & Hkw & _).
  exists r. split; [exact Hr|]. rewrite Hkw. by vm_compute.
Defined.

End Fallback.

(** ** The [analyze-sentiment] edge function *)

Module EdgeFacts.

Import Edge Cases.

Section Serve.

Context {Json : Type} (JSON_parse : string → option Json).

Lemma catch_block_valid t :
  Js.not_string (Some t) = false →
  catch_block (Json := Json) (TextString t) =
  mkResponse 200
    (Fallback None (mkSentimentData 0.5 neutral "undetermined" (catch_keywords t))).
Proof. intros Hvalid. unfold catch_block, catch_keywords. by rewrite Hvalid. Qed.

(** The function answers 200, 402 or 429, whatever the request and
    whatever the gateway does. *)
Lemma serve_status api_key fetch req :
  status (serve JSON_parse api_key fetch req) ∈ [200; 402; 429].
Proof.
  unfold serve. repeat case_match; simpl; set_solver.
Qed.

(** C1 (amended).  For a valid request with the API key configured:
    a rate-limited upstream call is answered with status 429 and an
    exhausted quota with status 402, both with the neutral fallback body
    and an [error] text; malformed LLM output is answered with status 200
    and the neutral fallback body without [error].  The keywords are the
    text's long words, or "analysis", "error" when the 200 fallback finds
    none. *)
Theorem expected_failures_degrade api_key fetch meth t c :
  meth ≠ "OPTIONS"%string →
  Js.not_string (Some t) = false →
  Js.not_string api_key = false →
  in_class JSON_parse c (fetch t) = true →
  ∃ error kws,
    serve JSON_parse api_key fetch (mkRequest meth (Body (TextString t))) =
      mkResponse (class_status c)
        (Fallback error (mkSentimentData 0.5 neutral "undetermined" kws))
    ∧ error = match c with
              | RateLimit =>
                  Some "Rate limit exceeded. Please try again in a moment."%string
              | QuotaExhausted =>
                  Some "AI credits exhausted. Please add credits to continue."%string
              | MalformedOutput => None
              end
    ∧ kws = match c with
            | RateLimit | QuotaExhausted => long_words t
            | MalformedOutput => catch_keywords t
            end.
Proof.
  intros Hmeth Htext Hkey Hclass.
  unfold serve. cbn [method request_body].
  rewrite bool_decide_eq_false_2 by done.
  unfold invalid_text. rewrite Htext, Hkey.
  unfold in_class in Hclass.
  destruct (fetch t) as [|st errorText completion]; [done|].
  destruct c.
  - apply bool_decide_eq_true in Hclass as ->. simpl.
    eexists _, _. by repeat split.
  - apply bool_decide_eq_true in Hclass as ->. simpl.
    eexists _, _. by repeat split.
  - apply andb_prop in Hclass as [Hok Hbad]. rewrite Hok. simpl.
    exists None, (catch_keywords t). split; [|done].
    rewrite <- (catch_block_valid t Htext).
    destruct completion as [|[[[[name arguments]|]]|]]; try done.
    simpl in Hbad. apply orb_prop in Hbad as [Hname | Hparse].
    + apply negb_true_iff, bool_decide_eq_false in Hname.
      by rewrite bool_decide_eq_false_2.
    + apply bool_decide_eq_true in Hparse. rewrite Hparse. by case_bool_decide.
Qed.

End Serve.

Lemma expected_failures_degrade_witness :
  in_class no_json RateLimit (gateway 429 "I feel really happy today") = true
  ∧ status (serve no_json (Some "key"%string) (gateway 429)
              (post "I feel really happy today")) = 429
  ∧ status (serve no_json (Some "key"%string) (gateway 200)
              (post "I feel really happy today")) = 200.
Proof.
  split; [reflexivity|]. split.
  - destruct (expected_failures_degrade no_json (Some "key"%string) (gateway 429)
                "POST" "I feel really happy today" RateLimit)
      as (error & kws & Hserve & _); [done|reflexivity|reflexivity|reflexivity|].
    unfold post. by rewrite Hserve.
  - destruct (expected_failures_degrade no_json (Some "key"%string) (gateway 200)
                "POST" "I feel really happy today" MalformedOutput)
      as (error & kws & Hserve & _); [done|reflexivity|reflexivity|reflexivity|].
    unfold post. by rewrite Hserve.
Defined.

(** A rate-limited call is answered with status 429. *)
Lemma rate_limit_answers_429 :
  ¬ degrades_with_200 RateLimit 429 "I feel really happy today".
Proof. intros H. specialize (H eq_refl). vm_compute in H. discriminate. Qed.

End EdgeFacts.

(** ** More on the hook: teardown, the sent log, timers, remote close *)

Module Session.

Import Deepgram Resources Scenario Wire.

Lemma disconnect_sent w : sent (browser (disconnect w)) = sent (browser w).
Proof.
  unfold disconnect. simpl.
  destruct (wsRef (refs w));
    rewrite ?(proj1 (proj2 (proj2 (proj2 (proj2 (Lifecycle.close_socket_fields _ _))))));
    simpl; by destruct (silenceTimeoutRef (refs w)).
Qed.

(** However [connect] turns out, what it leaves alive is owned by a ref. *)
Lemma connect_owned rd key media socket w :
  clean w → owned (connect rd key media socket w).1.
Proof.
  intros Hclean. pose proof (Lifecycle.clean_owned w Hclean) as Hown.
  destruct Hclean as (Hf & Hr & Hst & Hctx & Hnd & Htm & Hws).
  unfold connect. destruct (Js.not_string key) eqn:Hkey.
  { destruct w as [f r b]. simpl.
    eapply Lifecycle.owned_weaken; [exact Hown|done..|by apply Lifecycle.sockets_same]. }
  destruct media as [|message].
  2:{ destruct w as [f r b]. simpl.
      eapply Lifecycle.owned_weaken; [exact Hown|done..|by apply Lifecycle.sockets_same]. }
  destruct socket as [|message].
  - assert (Hc : clean w) by (by repeat split).
    destruct (Lifecycle.connect_granted rd key w Hc Hkey) as [Hgranted _].
    unfold connect in Hgranted. by rewrite Hkey in Hgranted.
  - unfold owned. simpl. rewrite Hr, Hst, Hctx, Hnd, Htm. simpl.
    split; [set_solver|]. repeat (split; [done|]). split.
    + intros ws s Hs Hconn. by destruct (Hws ws s Hs).
    + done.
Qed.

(** X1.  Stop always cleans up: after [connect] in the clean state,
    whatever the microphone and the socket constructor answered and
    whatever events followed (open, failure, remote close, audio, timers),
    [disconnect] ends in the clean disconnected state. *)
Theorem stop_always_cleans rd key media socket w0 events :
  clean w0 →
  clean (disconnect (run (connect rd key media socket w0).1 events)).
Proof.
  intros Hclean. apply Lifecycle.disconnect_clean, Lifecycle.owned_run.
  by apply connect_owned.
Qed.

Lemma stop_always_cleans_witness :
  clean initial
  ∧ clean (disconnect (run (connect (render_of initial) (Some "key"%string)
                              Granted Constructed initial).1
                         [SocketOpens 1; AudioFrame 4 loud; SocketCloses 1])).
Proof.
  split; [exact Lifecycle.clean_initial|].
  exact (stop_always_cleans (render_of initial) (Some "key"%string) Granted
           Constructed initial [SocketOpens 1; AudioFrame 4 loud; SocketCloses 1]
           Lifecycle.clean_initial).
Defined.

Lemma recording_stopped_is_clean : clean (disconnect recording).
Proof.
  apply Lifecycle.disconnect_clean. unfold recording.
  apply Lifecycle.owned_run, connect_owned, Lifecycle.clean_initial.
Qed.

(** *** The clean state is closed under events *)

Lemma clean_step w e : clean w → clean (step w e) ∧ sent (browser (step w e)) = sent (browser w).
Proof.
  intros Hclean. pose proof (Lifecycle.clean_owned w Hclean) as Hown.
  destruct Hclean as (Hf & Hr & Hst & Hctx & Hnd & Htm & Hws).
  assert (Hclean : clean w) by (by repeat split).
  destruct e as [ws|ws|ws|p inputData|tid]; simpl.
  - destruct (sockets (browser w) !! ws) as [s|] eqn:Es; [|done].
    case_decide as Ers; [|done].
    destruct (Hws ws s Es). by left.
  - destruct (sockets (browser w) !! ws) as [s|] eqn:Es; [|done].
    case_decide as Ers; [done|]. unfold ws_onerror. split.
    + apply Lifecycle.disconnect_clean. destruct w as [f r b].
      eapply Lifecycle.owned_weaken; [exact Hown|done..|apply Lifecycle.sockets_closed].
    + by rewrite disconnect_sent.
  - destruct (sockets (browser w) !! ws) as [s|] eqn:Es; [|done].
    split; [|done]. unfold ws_onclose, with_browser. simpl.
    split; [by rewrite Hf|]. split; [done|]. simpl.
    repeat (split; [done|]).
    intros ws' s' Hs' Hconn.
    apply Lifecycle.sockets_set_readyState in Hs' as (s0 & Hs0 & [[-> Hrs] | [Hne ->]]).
    + destruct Hconn; congruence.
    + by destruct (Hws ws' s0 Hs0).
  - destruct (handlers (browser w) !! p) as [cl|]; [|done].
    rewrite decide_False; [done|]. rewrite Hnd. set_solver.
  - by rewrite Htm, lookup_empty.
Qed.

(** X2.  Once the hook is in the clean disconnected state nothing that
    arrives later (late socket events, audio frames still in flight,
    timers) sends a byte or brings a resource back: the state stays clean
    and the log of sent messages is unchanged. *)
Theorem clean_state_is_closed w events :
  clean w →
  clean (run w events) ∧ sent (browser (run w events)) = sent (browser w).
Proof.
  revert w. induction events as [|e events IH]; intros w Hclean; [done|].
  destruct (clean_step w e Hclean) as [Hc Hs].
  destruct (IH (step w e) Hc) as [Hc' Hs'].
  change (run w (e :: events)) with (run (step w e) events).
  split; [exact Hc'|]. by rewrite Hs', Hs.
Qed.

Lemma clean_state_is_closed_witness :
  clean (disconnect recording)
  ∧ sent (browser (run (disconnect recording)
                     [AudioFrame 4 loud; SocketCloses 1; TimerElapses 5]))
    = sent (browser (disconnect recording)).
Proof.
  assert (H : clean (disconnect recording)).
  { apply (recording_stopped_is_clean). }
  split; [exact H|].
  exact (proj2 (clean_state_is_closed (disconnect recording)
                  [AudioFrame 4 loud; SocketCloses 1; TimerElapses 5] H)).
Defined.

(** *** The log of sent messages *)

Lemma whole_samples_buffer ws inputData :
  whole_samples (ws, Pcm.buffer (Pcm.pcmData inputData)).
Proof.
  split; simpl; [|apply PcmFacts.buffer_bytes].
  rewrite PcmFacts.buffer_length. apply Nat.even_spec. by eexists.
Qed.

Lemma onaudioprocess_sent cl inputData w :
  ∃ more, sent (browser (onaudioprocess cl inputData w)) = sent (browser w) ++ more
          ∧ Forall whole_samples more.
Proof.
  unfold onaudioprocess. case_decide; [|exists []; by rewrite app_nil_r].
  destruct (Pcm.isSpeechDetected inputData).
  - eexists [_]. split.
    + by destruct (silenceTimeoutRef (refs w)).
    + repeat constructor; apply whole_samples_buffer.
  - exists []. rewrite app_nil_r. split; [|done].
    destruct (silenceTimeoutRef (refs w)); [done|].
    by destruct (closure_isSpeaking cl).
Qed.

Lemma step_sent w e :
  ∃ more, sent (browser (step w e)) = sent (browser w) ++ more
          ∧ Forall whole_samples more.
Proof.
  assert (Hsame : ∀ w', sent (browser w') = sent (browser w) →
            ∃ more, sent (browser w') = sent (browser w) ++ more
                    ∧ Forall whole_samples more).
  { intros w' ->. exists []. by rewrite app_nil_r. }
  destruct e as [ws|ws|ws|p inputData|tid]; simpl.
  - destruct (sockets (browser w) !! ws); [|by apply Hsame].
    case_decide; by apply Hsame.
  - destruct (sockets (browser w) !! ws); [|by apply Hsame].
    case_decide; [by apply Hsame|]. apply Hsame.
    unfold ws_onerror. by rewrite disconnect_sent.
  - destruct (sockets (browser w) !! ws); by apply Hsame.
  - destruct (handlers (browser w) !! p); [|by apply Hsame].
    case_decide; [apply onaudioprocess_sent | by apply Hsame].
  - destruct (timers (browser w) !! tid); by apply Hsame.
Qed.

(** X3.  The hook never takes back or rewrites what it sent: along any
    run the log of sent messages only grows at its end, and every message
    added is a whole number of 16-bit samples (an even number of bytes,
    each in [0, 255]). *)
Theorem sent_log_grows_by_whole_samples w events :
  ∃ more, sent (browser (run w events)) = sent (browser w) ++ more
          ∧ Forall whole_samples more.
Proof.
  revert w. induction events as [|e events IH]; intros w.
  - exists []. by rewrite app_nil_r.
  - change (run w (e :: events)) with (run (step w e) events).
    destruct (IH (step w e)) as (more2 & H2 & Hw2).
    destruct (step_sent w e) as (more1 & H1 & Hw1).
    exists (more1 ++ more2). rewrite H2, H1, app_assoc.
    split; [done|]. by apply Forall_app.
Qed.

(** *** The silence timer *)

Lemma one_silence_timer_onaudioprocess cl inputData w :
  one_silence_timer w → one_silence_timer (onaudioprocess cl inputData w).
Proof.
  unfold one_silence_timer, onaudioprocess. intros Hinv.
  case_decide; [|done].
  destruct (Pcm.isSpeechDetected inputData),
    (silenceTimeoutRef (refs w)) as [t|] eqn:Et; simpl; rewrite ?Et; try done.
  - rewrite Hinv. apply delete_singleton_eq.
  - destruct (closure_isSpeaking cl); simpl; rewrite ?Et; [|done].
    rewrite Hinv. apply insert_empty.
Qed.

Lemma one_silence_timer_disconnect w :
  one_silence_timer w → one_silence_timer (disconnect w).
Proof.
  unfold one_silence_timer. intros Hinv.
  rewrite Lifecycle.disconnect_timers, Lifecycle.disconnect_refs. simpl.
  destruct (silenceTimeoutRef (refs w)); [|done].
  rewrite Hinv. apply delete_singleton_eq.
Qed.

Lemma one_silence_timer_step w e :
  one_silence_timer w → one_silence_timer (step w e).
Proof.
  intros Hinv. destruct e as [ws|ws|ws|p inputData|tid]; simpl.
  - destruct (sockets (browser w) !! ws); [|done]. by case_decide.
  - destruct (sockets (browser w) !! ws); [|done]. case_decide; [done|].
    by apply one_silence_timer_disconnect.
  - by destruct (sockets (browser w) !! ws).
  - destruct (handlers (browser w) !! p); [|done].
    case_decide; [|done]. by apply one_silence_timer_onaudioprocess.
  - destruct (timers (browser w) !! tid) as [delay|] eqn:Etid; [|done].
    unfold one_silence_timer in *. simpl.
    rewrite Hinv in Etid |- *.
    destruct (silenceTimeoutRef (refs w)) as [t|]; [|done].
    apply lookup_singleton_Some in Etid as [-> _]. apply delete_singleton_eq.
Qed.

Lemma one_silence_timer_connect rd key media socket w :
  one_silence_timer w → one_silence_timer (connect rd key media socket w).1.
Proof.
  unfold one_silence_timer, connect. intros Hinv.
  destruct (Js.not_string key); [done|].
  destruct media; [|done]. by destruct socket.
Qed.

(** X4.  At most one silence timer is ever pending, it runs for 800 ms,
    and it is the one [silenceTimeoutRef] holds; when the ref is null no
    timer is pending.  This holds after [connect] and any events, from
    every state in which it holds. *)
Theorem silence_timer_is_single rd key media socket w0 events :
  one_silence_timer w0 →
  timers (browser (run (connect rd key media socket w0).1 events)) =
    match silenceTimeoutRef (refs (run (connect rd key media socket w0).1 events)) with
    | Some t => {[t := 800]}
    | None => ∅
    end.
Proof.
  intros Hinv.
  assert (Hrun : ∀ w, one_silence_timer w → one_silence_timer (run w events)).
  { induction events as [|e events IH]; intros w Hw; [done|].
    apply IH. by apply one_silence_timer_step. }
  apply Hrun. by apply one_silence_timer_connect.
Qed.

Lemma silence_timer_is_single_witness :
  one_silence_timer initial
  ∧ timers (browser (run (connect (mkRender true) (Some "key"%string) Granted
                            Constructed initial).1
                       [SocketOpens 1; AudioFrame 4 quiet; AudioFrame 4 quiet]))
    = {[5%nat := 800]}.
Proof.
  assert (H : one_silence_timer initial) by reflexivity.
  split; [exact H|].
  rewrite (silence_timer_is_single (mkRender true) (Some "key"%string) Granted
             Constructed initial
             [SocketOpens 1; AudioFrame 4 quiet; AudioFrame 4 quiet] H).
  by vm_compute.
Defined.

(** *** Remote close *)

(** X5.  When the remote side closes the socket, [ws.onclose] only sets
    [isConnected] and [isRecording] to false: the refs, the running
    microphone stream, the audio graph and a pending timer are left as they
    are, [isSpeaking] keeps its value, and from then on every frame for
    that socket is dropped. *)
Theorem remote_close_releases_nothing w ws s :
  sockets (browser w) !! ws = Some s →
  isConnected (flags (step w (SocketCloses ws))) = false
  ∧ isRecording (flags (step w (SocketCloses ws))) = false
  ∧ isSpeaking (flags (step w (SocketCloses ws))) = isSpeaking (flags w)
  ∧ refs (step w (SocketCloses ws)) = refs w
  ∧ live_streams (browser (step w (SocketCloses ws))) = live_streams (browser w)
  ∧ contexts (browser (step w (SocketCloses ws))) = contexts (browser w)
  ∧ nodes (browser (step w (SocketCloses ws))) = nodes (browser w)
  ∧ timers (browser (step w (SocketCloses ws))) = timers (browser w)
  ∧ ∀ captured inputData,
      onaudioprocess (mkAudioProcess ws captured) inputData
        (step w (SocketCloses ws))
      = step w (SocketCloses ws).
Proof.
  intros Hs. simpl. rewrite Hs. repeat (split; [done|]).
  intros captured inputData. apply Gate.onaudioprocess_not_open.
  unfold ws_onclose, with_browser. simpl.
  rewrite Lifecycle.readyState_of_set, decide_True by done.
  unfold readyState_of. by rewrite Hs.
Qed.

Lemma remote_close_releases_nothing_witness :
  live_streams (browser (step recording (SocketCloses 1))) = {[0%nat]}
  ∧ streamRef (refs (step recording (SocketCloses 1))) = Some 0%nat
  ∧ isRecording (flags (step recording (SocketCloses 1))) = false.
Proof.
  assert (Hs : sockets (browser recording) !! 1%nat =
               Some (mkSocket OPEN 0 (mkRender false))) by (by vm_compute).
  destruct (remote_close_releases_nothing recording 1 _ Hs)
    as (_ & Hrec & _ & Hrefs & Hlive & _).
  rewrite Hlive, Hrefs. split; [by vm_compute|]. split; [by vm_compute|done].
Defined.

Lemma stranded_disconnect s0 w : stranded s0 w → stranded s0 (disconnect w).
Proof.
  intros [Hlive Href]. split; [|done].
  rewrite Lifecycle.disconnect_live_streams.
  destruct (streamRef (refs w)) as [s1|]; simpl; set_solver.
Qed.

Lemma onaudioprocess_streams cl inputData w :
  live_streams (browser (onaudioprocess cl inputData w)) = live_streams (browser w)
  ∧ streamRef (refs (onaudioprocess cl inputData w)) = streamRef (refs w).
Proof.
  unfold onaudioprocess. case_decide; [|done].
  destruct (Pcm.isSpeechDetected inputData), (silenceTimeoutRef (refs w));
    try done.
  by destruct (closure_isSpeaking cl).
Qed.

Lemma stranded_step s0 w e : stranded s0 w → stranded s0 (step w e).
Proof.
  intros Hs. destruct e as [ws|ws|ws|p inputData|tid]; simpl.
  - destruct (sockets (browser w) !! ws); [|done]. by case_decide.
  - destruct (sockets (browser w) !! ws); [|done]. case_decide; [done|].
    by apply stranded_disconnect.
  - by destruct (sockets (browser w) !! ws).
  - destruct (handlers (browser w) !! p) as [cl|]; [|done]. case_decide; [|done].
    destruct (onaudioprocess_streams cl inputData w) as [H1 H2].
    unfold stranded. by rewrite H1, H2.
  - by destruct (timers (browser w) !! tid).
Qed.

(** X6.  [connect] overwrites [streamRef] without stopping a stream that is
    still running (for instance after a remote close): that stream keeps
    running through the whole new session and through the [disconnect]
    that ends it. *)
Theorem earlier_stream_is_never_stopped rd key s0 w events :
  Js.not_string key = false →
  s0 ∈ live_streams (browser w) → s0 ≠ fresh (browser w) →
  s0 ∈ live_streams
         (browser (disconnect (run (connect rd key Granted Constructed w).1 events))).
Proof.
  intros Hkey Hlive Hfresh.
  assert (H0 : stranded s0 (connect rd key Granted Constructed w).1).
  { unfold connect. rewrite Hkey. split; simpl; [set_solver|congruence]. }
  assert (Hrun : ∀ w', stranded s0 w' → stranded s0 (run w' events)).
  { induction events as [|e events IH]; intros w' Hw'; [done|].
    apply IH. by apply stranded_step. }
  by apply stranded_disconnect, Hrun.
Qed.

Lemma earlier_stream_is_never_stopped_witness :
  0%nat ∈ live_streams (browser (step recording (SocketCloses 1)))
  ∧ 0%nat ∈ live_streams
      (browser (disconnect
         (run (connect (render_of initial) (Some "key"%string) Granted Constructed
                 (step recording (SocketCloses 1))).1
              [SocketOpens 6; AudioFrame 9 loud]))).
Proof.
  assert (H : 0%nat ∈ live_streams (browser (step recording (SocketCloses 1))))
    by (by vm_compute).
  split; [exact H|].
  apply (earlier_stream_is_never_stopped (render_of initial) (Some "key"%string)
           0%nat (step recording (SocketCloses 1))
           [SocketOpens 6; AudioFrame 9 loud] eq_refl H).
  by vm_compute.
Defined.

End Session.

(** ** Messages from the transcription service and the page's log *)

Module Routing.

Import Message Index Received.

Lemma trimStart_empty s : trimStart s = EmptyString ↔ has_ink s = false.
Proof.
  induction s as [|c rest IH]; simpl; [done|].
  destruct (is_space c); simpl; [exact IH | done].
Qed.

Lemma trimEnd_empty s : trimEnd s = EmptyString ↔ has_ink s = false.
Proof.
  induction s as [|c rest IH]; simpl; [done|].
  destruct (trimEnd rest) as [|d kept] eqn:E.
  - assert (has_ink rest = false) as -> by (by apply IH).
    rewrite orb_false_r. by destruct (is_space c).
  - split; [done|]. intros Hink. apply orb_false_elim in Hink as [_ Hrest].
    by apply IH in Hrest.
Qed.

Lemma has_ink_trimStart s : has_ink (trimStart s) = has_ink s.
Proof.
  induction s as [|c rest IH]; simpl; [done|].
  destruct (is_space c) eqn:E; simpl; [done | by rewrite E].
Qed.

(** [s.trim()] is empty exactly when [s] is all white space. *)
Lemma trim_empty s : trim s = EmptyString ↔ has_ink s = false.
Proof. unfold trim. by rewrite trimEnd_empty, has_ink_trimStart. Qed.

Lemma speaks_has_ink tr : speaks (Some tr) = has_ink tr.
Proof.
  unfold speaks, Js.not_string.
  destruct (has_ink tr) eqn:Hink.
  - apply andb_true_intro. split; apply negb_true_iff, bool_decide_eq_false.
    + intros ->. discriminate.
    + intros Ht%trim_empty. congruence.
  - apply andb_false_intro2, negb_false_iff, bool_decide_eq_true.
    by apply trim_empty.
Qed.

(** X7.  [ws.onmessage] calls [onTranscript] exactly for messages whose
    first alternative has a transcript with a character that is not white
    space; the entry is the transcript as received (not trimmed), the
    current time and whether [is_final] is [true]. *)
Theorem message_is_passed_on_iff now data entry :
  ws_onmessage now data = Some entry
  ↔ ∃ tr, alternative data = Some (mkAlternative (Some tr))
          ∧ has_ink tr = true
          ∧ entry = mkTranscriptEntry tr now (is_final_true data).
Proof.
  unfold ws_onmessage. split.
  - destruct (alternative data) as [[[tr|]]|]; try done. cbn [transcript].
    rewrite speaks_has_ink. destruct (has_ink tr) eqn:Hink; [|done].
    intros [= <-]. by exists tr.
  - intros (tr & -> & Hink & ->). cbn [transcript].
    by rewrite speaks_has_ink, Hink.
Qed.

(** X8.  A message changes the page only if its transcript is not blank.
    A final one appends its entry to the log, empties the interim slot
    and asks for one sentiment analysis of the transcript as received; an
    interim one only replaces the interim slot; a blank or malformed
    message changes nothing and asks for nothing. *)
Theorem message_reaches_page now data s :
  deliver now data s =
    match alternative data with
    | Some (mkAlternative (Some tr)) =>
        if has_ink tr then
          if is_final_true data then
            (mkState (transcripts s ++ [mkTranscriptEntry tr now true])
                     EmptyString (sentimentScore s) (sentimentLabel s) (mood s)
                     (keywords s),
             [tr])
          else
            (mkState (transcripts s) tr (sentimentScore s) (sentimentLabel s)
                     (mood s) (keywords s),
             [])
        else (s, [])
    | _ => (s, [])
    end.
Proof.
  unfold deliver, ws_onmessage.
  destruct (alternative data) as [[[tr|]]|]; try done. cbn [transcript].
  rewrite speaks_has_ink. destruct (has_ink tr); [|done].
  unfold handleTranscript. simpl. by destruct (is_final_true data).
Qed.

(** *** Runs of the page *)

Lemma resume_transcripts p s :
  transcripts (resume p s) = transcripts s
  ∧ interimTranscript (resume p s) = interimTranscript s.
Proof. by destruct p as [[r|]|]. Qed.

(** X9.  Over any sequence of transcripts and settled sentiment calls, the
    log is the old log followed by exactly the final transcripts in the
    order they arrived, and the sentiment requests are exactly their texts
    in that order; interim transcripts and sentiment results never touch
    the log. *)
Theorem log_is_the_final_transcripts s events :
  transcripts (run s events).1 = transcripts s ++ finals events
  ∧ (run s events).2 = text <$> finals events.
Proof.
  revert s. induction events as [|e events IH]; intros s; simpl.
  - by rewrite app_nil_r.
  - destruct e as [t|p]; simpl.
    + unfold handleTranscript.
      destruct (isFinal t) eqn:Hfinal; simpl;
        match goal with |- context [run ?s1 events] =>
          destruct (IH s1) as [H1 H2]; destruct (run s1 events) as [s2 reqs] end;
        simpl in *; rewrite H1, H2; simpl; by rewrite <- ?app_assoc.
    + destruct (IH (resume p s)) as [H1 H2].
      destruct (run (resume p s) events) as [s2 reqs]. simpl in *.
      rewrite H1, H2, (proj1 (resume_transcripts p s)).
      by destruct p as [[r|]|].
Qed.

(** The sentiment shown after a run: that of the last result, if any. *)
Lemma run_sentiment s events :
  sentimentScore (run s events).1 =
    from_option sentiment_score (sentimentScore s) (last (results events))
  ∧ sentimentLabel (run s events).1 =
      from_option sentiment_label (sentimentLabel s) (last (results events))
  ∧ mood (run s events).1 =
      from_option Types.mood (mood s) (last (results events)).
Proof.
  revert s. induction events as [|e events IH]; intros s; [done|].
  simpl. destruct e as [t|[[r|]|reason]]; simpl.
  - unfold handleTranscript.
    destruct (isFinal t); simpl;
      match goal with |- context [run ?s1 events] =>
        destruct (IH s1) as (H1 & H2 & H3); destruct (run s1 events) as [s2 reqs] end;
      simpl in *; by rewrite H1, H2, H3.
  - match goal with |- context [run ?s1 events] =>
      destruct (IH s1) as (H1 & H2 & H3); destruct (run s1 events) as [s2 reqs] end.
    simpl in *. rewrite H1, H2, H3.
    by destruct (results events) as [|r' rest] using rev_ind;
      rewrite ?last_cons, ?last_snoc.
  - destruct (IH s) as (H1 & H2 & H3). by destruct (run s events).
  - destruct (IH s) as (H1 & H2 & H3). by destruct (run s events).
Qed.

(** X10.  Last write wins: after any run the score, label and mood shown
    are those of the sentiment result that arrived last, whichever
    transcript it belongs to; with no result they are unchanged.  A call
    that resolved to null or was rejected changes nothing. *)
Theorem last_result_is_shown s events :
  sentimentScore (run s events).1 =
    from_option sentiment_score (sentimentScore s) (last (results events))
  ∧ sentimentLabel (run s events).1 =
      from_option sentiment_label (sentimentLabel s) (last (results events))
  ∧ mood (run s events).1 =
      from_option Types.mood (mood s) (last (results events))
  ∧ resume (Fulfilled None) s = s
  ∧ ∀ reason, resume (Rejected reason) s = s.
Proof.
  destruct (run_sentiment s events) as (H1 & H2 & H3). by repeat split.
Qed.

Lemma run_keywords s events :
  keywords (run s events).1 =
  fold_left (λ acc r, accumulate (Types.keywords r) acc) (results events) (keywords s).
Proof.
  revert s. induction events as [|e events IH]; intros s; [done|].
  simpl. destruct e as [t|[[r|]|reason]]; simpl.
  - unfold handleTranscript.
    destruct (isFinal t); simpl;
      match goal with |- context [run ?s1 events] =>
        pose proof (IH s1) as H1; destruct (run s1 events) as [s2 reqs] end;
      simpl in *; by rewrite H1.
  - match goal with |- context [run ?s1 events] =>
      pose proof (IH s1) as H1; destruct (run s1 events) as [s2 reqs] end.
    simpl in *. by rewrite H1.
  - pose proof (IH s) as H1. by destruct (run s events).
  - pose proof (IH s) as H1. by destruct (run s events).
Qed.

Lemma fold_accumulate_elem (rs : list SentimentData) acc kw :
  kw ∈ fold_left (λ acc r, accumulate (Types.keywords r) acc) rs acc
  ↔ kw ∈ acc ∨ ∃ r, r ∈ rs ∧ kw ∈ Types.keywords r.
Proof.
  revert acc. induction rs as [|r rs IH]; intros acc; simpl.
  - split; [by left|]. intros [H|(r & Hr & _)]; [done|]. by apply elem_of_nil in Hr.
  - rewrite IH, Router.accumulate_elem. split.
    + intros [[H|H]|(r' & Hr' & Hkw)]; [by left| |].
      * right. exists r. split; [left|done].
      * right. exists r'. split; [by right|done].
    + intros [H|(r' & Hr' & Hkw)]; [by left; left|].
      apply elem_of_cons in Hr' as [->|Hr']; [by left; right|].
      right. by exists r'.
Qed.

Lemma fold_accumulate_prefix (rs : list SentimentData) acc :
  acc `prefix_of` fold_left (λ acc r, accumulate (Types.keywords r) acc) rs acc.
Proof.
  revert acc. induction rs as [|r rs IH]; intros acc; simpl; [done|].
  etrans; [apply (Router.accumulate_prefix (Types.keywords r))|apply IH].
Qed.

(** X11.  Over any run the keyword list only grows at its end (nothing is
    removed or reordered), and its members are exactly the old keywords
    and the keywords of every sentiment result that arrived, in whatever
    order the results came. *)
Theorem keywords_are_everything_received s events kw :
  keywords s `prefix_of` keywords (run s events).1
  ∧ (kw ∈ keywords (run s events).1
     ↔ kw ∈ keywords s ∨ ∃ r, r ∈ results events ∧ kw ∈ Types.keywords r).
Proof.
  rewrite run_keywords. split;
    [apply fold_accumulate_prefix | apply fold_accumulate_elem].
Qed.

(** X12.  If the list has no repeated keyword and no single result repeats
    one, the list never has a repeated keyword, however many results
    name the same keyword. *)
Theorem keywords_stay_distinct s events :
  NoDup (keywords s) →
  Forall (λ r, NoDup (Types.keywords r)) (results events) →
  NoDup (keywords (run s events).1).
Proof.
  rewrite run_keywords. generalize (keywords s) as acc.
  induction (results events) as [|r rs IH]; intros acc Hacc Hrs; [done|].
  apply Forall_cons in Hrs as [Hr Hrs]. simpl.
  apply IH; [|done]. by apply Router.accumulate_NoDup.
Qed.

Lemma keywords_stay_distinct_witness :
  keywords (run initial
    [SentimentSettled (Fulfilled (Some
       (mkSentimentData 0.9 positive "happy" ["happy"; "today"]%string)));
     SentimentSettled (Fulfilled (Some
       (mkSentimentData 0.8 positive "glad" ["today"; "great"]%string)))]).1
  = ["happy"; "today"; "great"]%string
  ∧ NoDup (keywords (run initial
    [SentimentSettled (Fulfilled (Some
       (mkSentimentData 0.9 positive "happy" ["happy"; "today"]%string)));
     SentimentSettled (Fulfilled (Some
       (mkSentimentData 0.8 positive "glad" ["today"; "great"]%string)))]).1).
Proof.
  split; [by vm_compute|].
  apply keywords_stay_distinct; [constructor|].
  repeat constructor; set_solver.
Defined.

End Routing.


(** ** The keyword pills *)

Module Pills.

Import Index KeywordsDisplay.

Lemma filter_known (K N : list string) :
  Forall (λ w, w ∉ K) N →
  filter (λ w, w ∉ K) (K ++ N) = N.
Proof.
  intros HN. rewrite filter_app.
  assert (filter (λ w, w ∉ K) K = []) as ->.
  { destruct (filter _ K) as [|w rest] eqn:E; [done|].
    assert (Hw : w ∈ filter (λ w, w ∉ K) K) by (rewrite E; left).
    by apply list_elem_of_filter in Hw as [Hnot Hin]. }
  simpl. induction HN as [|w N Hw HN IH]; [done|].
  by rewrite filter_cons_True, IH.
Qed.

(** X13.  The pills follow the page: if the displayed words are the
    page's keyword list, then after the page merges a sentiment result and
    the component's effect runs, the displayed words are again the page's
    keyword list, in the same order, and the highlighted pill is its last
    keyword.  (With both lists empty this is the mount.) *)
Theorem pills_follow_keywords fresh_id result_keywords K (D : list Displayed) :
  word <$> D = K →
  word <$> effect fresh_id (accumulate result_keywords K) D D
    = accumulate result_keywords K
  ∧ word <$> top (effect fresh_id (accumulate result_keywords K) D D)
    = last (accumulate result_keywords K).
Proof.
  intros HD.
  assert (Hwords : word <$> effect fresh_id (accumulate result_keywords K) D D
                   = accumulate result_keywords K).
  { assert (Hnew : filter (λ w, w ∉ K) (accumulate result_keywords K)
                   = filter (λ kw, Js.includes K kw = false) result_keywords).
    { unfold accumulate. apply filter_known, Forall_forall. intros w Hw.
      apply list_elem_of_filter in Hw as [Hnot _].
      by apply Router.includes_false. }
    unfold effect. rewrite HD, Hnew. unfold accumulate.
    destruct (filter _ result_keywords) as [|w N]; simpl.
    - by rewrite app_nil_r.
    - rewrite fmap_app, HD. simpl. f_equal. f_equal.
      rewrite <- list_fmap_compose. apply list_fmap_id. }
  split; [exact Hwords|]. unfold top. by rewrite <- fmap_last, Hwords.
Qed.

Lemma pills_follow_keywords_witness :
  word <$> effect (λ w, w) (accumulate ["happy"; "today"]%string []) [] []
  = ["happy"; "today"]%string.
Proof.
  destruct (pills_follow_keywords (λ w, w) ["happy"; "today"]%string [] []
              eq_refl) as [H _].
  rewrite H. by vm_compute.
Defined.

End Pills.

(** ** The page and a sentiment call that fails *)

Module Degraded.

Import SentimentHook Index.



End Degraded.

(** ** More on the edge function *)

Module EdgeMore.

Import Edge.

Section Serve.

Context {Json : Type} (JSON_parse : string → option Json).

(** X15.  A request without a usable text (the body is not JSON or is
    null, [text] is missing, empty or not a string) or arriving while the
    API key is not configured is answered without contacting the gateway:
    status 200 and the neutral fallback, with the keywords "analysis",
    "error" when the text is unusable and the text's own fallback keywords
    when only the key is missing. *)
Theorem unusable_request_skips_gateway api_key fetch req :
  method req ≠ "OPTIONS"%string →
  valid_text (request_body req) = None ∨ Js.not_string api_key = true →
  serve JSON_parse api_key fetch req =
    mkResponse 200
      (Fallback None
         (mkSentimentData 0.5 neutral "undetermined"
            (from_option catch_keywords ["analysis"; "error"]%string
               (valid_text (request_body req))))).
Proof.
  intros Hmeth Hbad. unfold serve. rewrite bool_decide_eq_false_2 by done.
  destruct (request_body req) as [| |[t| |truthy]]; try done.
  unfold catch_block, catch_keywords. simpl in *.
  destruct (bool_decide (t = EmptyString)) eqn:Ht; [done|].
  destruct Hbad as [Hbad|Hkey]; [done|].
  rewrite Hkey. simpl. by destruct (long_words t).
Qed.

(** X16.  The function answers with an analysis exactly when everything
    went well: the method is not OPTIONS, the text is a non-empty string,
    the key is configured, the gateway answered with a 2xx status and a
    tool call of [analyze_sentiment] whose arguments parse; the body is
    then the parsed arguments and the status 200. *)
Theorem analysis_iff_all_went_well api_key fetch req result :
  response_body (serve JSON_parse api_key fetch req) = Result result
  ↔ method req ≠ "OPTIONS"%string
    ∧ Js.not_string api_key = false
    ∧ ∃ t st errorText arguments,
        valid_text (request_body req) = Some t
        ∧ fetch t = Replies st errorText
                      (Data (Some (mkToolCall (Some ("analyze_sentiment"%string, arguments)))))
        ∧ ok st = true
        ∧ JSON_parse arguments = Some result.
Proof.
  unfold serve. split.
  - destruct (bool_decide (method req = "OPTIONS"%string)) eqn:Hmeth; [done|].
    apply bool_decide_eq_false in Hmeth.
    destruct (request_body req) as [| |[t| |truthy]]; try done.
    simpl. destruct (bool_decide (t = EmptyString)) eqn:Ht; [done|].
    destruct (Js.not_string api_key) eqn:Hkey; [done|].
    destruct (fetch t) as [|st errorText completion] eqn:Hfetch; [done|].
    destruct (ok st) eqn:Hok; simpl.
    2:{ destruct (bool_decide (st = 429)); [done|].
        by destruct (bool_decide (st = 402)). }
    destruct completion as [|[[[[name arguments]|]]|]]; try done.
    destruct (bool_decide (name = "analyze_sentiment"%string)) eqn:Hname; [|done].
    apply bool_decide_eq_true in Hname as ->.
    destruct (JSON_parse arguments) as [r|] eqn:Hparse; [|done].
    simpl. intros [= ->]. split; [done|]. split; [done|].
    by exists t, st, errorText, arguments.
  - intros (Hmeth & Hkey & t & st & errorText & arguments & Hvalid & Hfetch & Hok & Hparse).
    rewrite bool_decide_eq_false_2 by done.
    destruct (request_body req) as [| |[t'| |truthy]]; try done.
    simpl in *. destruct (bool_decide (t' = EmptyString)) eqn:Ht; [done|].
    injection Hvalid as ->. rewrite Hkey, Hfetch, Hok. simpl.
    rewrite ?bool_decide_eq_true_2 by done. by rewrite Hparse.
Qed.

(** X17.  Every other failure of the upstream call (the fetch is
    rejected, or the status is outside 2xx and neither 429 nor 402, such
    as 500) is answered with status 200 and the neutral fallback without an
    [error] field, whose keywords are the text's long words or "analysis",
    "error". *)
Theorem other_failures_answer_200 api_key fetch meth t :
  meth ≠ "OPTIONS"%string →
  Js.not_string (Some t) = false →
  Js.not_string api_key = false →
  other_failure (fetch t) = true →
  serve JSON_parse api_key fetch (mkRequest meth (Body (TextString t))) =
    mkResponse 200
      (Fallback None (mkSentimentData 0.5 neutral "undetermined" (catch_keywords t))).
Proof.
  intros Hmeth Ht Hkey Hother.
  rewrite <- (EdgeFacts.catch_block_valid t Ht).
  unfold serve. cbn [method request_body].
  rewrite bool_decide_eq_false_2 by done. unfold invalid_text. rewrite Ht, Hkey.
  destruct (fetch t) as [|st errorText completion]; [done|].
  simpl in Hother. apply andb_prop in Hother as [[Hok H429]%andb_prop H402].
  apply negb_true_iff in H429, H402. by rewrite Hok, H429, H402.
Qed.

Lemma catch_block_shape (text : TextField) :
  ∃ kws, catch_block (Json := Json) text =
           mkResponse 200
             (Fallback None (mkSentimentData 0.5 neutral "undetermined" kws))
         ∧ (1 ≤ length kws ≤ 3)%nat.
Proof.
  unfold catch_block. eexists. split; [reflexivity|].
  destruct text as [t| |truthy]; simpl; try lia.
  destruct (bool_decide (t = EmptyString)); simpl; [lia|].
  pose proof (Fallback.long_words_length t).
  destruct (long_words t); simpl in *; lia.
Qed.

(** X18.  Whatever the request, the key and the gateway do, the answer is
    one of four shapes: an empty 200 for OPTIONS; a 200 with the parsed
    analysis; a 200 neutral fallback without [error] carrying one to three
    keywords; or a 429 or 402 neutral fallback with an [error] text and at
    most three keywords.  Every fallback has score 0.5, label neutral and
    mood "undetermined". *)
Theorem every_answer_has_a_known_shape api_key fetch req :
  match response_body (serve JSON_parse api_key fetch req) with
  | NullResponse =>
      method req = "OPTIONS"%string
      ∧ status (serve JSON_parse api_key fetch req) = 200
  | Result _ => status (serve JSON_parse api_key fetch req) = 200
  | Fallback error d =>
      sentiment_score d = 0.5%float ∧ sentiment_label d = neutral
      ∧ mood d = "undetermined"%string
      ∧ (length (keywords d) ≤ 3)%nat
      ∧ match error with
        | None => status (serve JSON_parse api_key fetch req) = 200
                  ∧ (1 ≤ length (keywords d))%nat
        | Some _ => status (serve JSON_parse api_key fetch req) = 429
                    ∨ status (serve JSON_parse api_key fetch req) = 402
        end
  end.
Proof.
  assert (Hcatch : ∀ text,
    match response_body (catch_block (Json := Json) text) with
    | NullResponse => False
    | Result _ => False
    | Fallback error d =>
        sentiment_score d = 0.5%float ∧ sentiment_label d = neutral
        ∧ mood d = "undetermined"%string
        ∧ (length (keywords d) ≤ 3)%nat
        ∧ match error with
          | None => status (catch_block (Json := Json) text) = 200
                    ∧ (1 ≤ length (keywords d))%nat
          | Some _ => False
          end
    end).
  { intros text. destruct (catch_block_shape text) as (kws & -> & Hlen).
    simpl. repeat split; lia. }
  unfold serve.
  destruct (bool_decide (method req = "OPTIONS"%string)) eqn:Hmeth.
  { apply bool_decide_eq_true in Hmeth. by split. }
  destruct (request_body req) as [| |[t| |truthy]]; try apply Hcatch.
  destruct (invalid_text (TextString t)); [apply Hcatch|].
  destruct (Js.not_string api_key); [apply Hcatch|].
  destruct (fetch t) as [|st errorText completion]; [apply Hcatch|].
  destruct (negb (ok st)).
  - destruct (bool_decide (st = 429)).
    { simpl. pose proof (Fallback.long_words_length t). repeat split; auto. }
    destruct (bool_decide (st = 402)); [|apply Hcatch].
    simpl. pose proof (Fallback.long_words_length t). repeat split; auto.
  - destruct completion as [|[[[[name arguments]|]]|]]; try apply Hcatch.
    destruct (bool_decide (name = "analyze_sentiment"%string)); [|apply Hcatch].
    destruct (JSON_parse arguments); [done | apply Hcatch].
Qed.

End Serve.

Lemma unusable_request_skips_gateway_witness :
  serve Cases.no_json None (Cases.gateway 200) (Cases.post "hello there world")
  = mkResponse 200
      (Fallback None
         (mkSentimentData 0.5 neutral "undetermined" ["hello"; "there"; "world"]%string)).
Proof.
  rewrite (unusable_request_skips_gateway Cases.no_json None (Cases.gateway 200)
             (Cases.post "hello there world"));
    [by vm_compute | done | by right].
Defined.

Lemma other_failures_answer_200_witness :
  serve Cases.no_json (Some "key"%string) (Cases.gateway 500) (Cases.post "so sad")
  = mkResponse 200
      (Fallback None
         (mkSentimentData 0.5 neutral "undetermined" ["analysis"; "error"]%string)).
Proof.
  unfold Cases.post.
  rewrite (other_failures_answer_200 Cases.no_json (Some "key"%string)
             (Cases.gateway 500) "POST" "so sad");
    [by vm_compute | done | reflexivity | reflexivity | reflexivity].
Defined.

End EdgeMore.

(** ** The aura: targets and particles *)

Module AuraFacts.

Import Aura FloatFacts.
Local Open Scope float_scope.

Lemma draw_in_step sk props0 props : in_step sk props0 → in_step (draw sk props) props.
Proof.
  intros (Ht & Hl & Hc). unfold draw.
  destruct (bool_decide (label props ≠ lastLabel sk)) eqn:E1; [done|].
  destruct (bool_decide (keywordCount props ≠ lastKeywordCount sk)) eqn:E2; [done|].
  apply bool_decide_eq_false in E1, E2. simpl.
  assert (props = props0) as ->; [|done].
  destruct props, props0. simpl in *. f_equal.
  - destruct (decide (label0 = lastLabel sk)); [congruence|done].
  - destruct (decide (keywordCount0 = lastKeywordCount sk)); [congruence|done].
Qed.

(** X19.  Skipping the recomputation when neither the label nor the number
    of keywords changed loses nothing: after any sequence of frames the
    targets of the animation are exactly those [updateVisualization] gives
    for the props of the latest frame (of the mount, if no frame was
    drawn). *)
Theorem targets_follow_latest_props props0 frames :
  targets (fold_left draw frames (mount props0))
  = updateVisualization (default props0 (last frames)).
Proof.
  assert (H : ∀ sk p, in_step sk p →
            in_step (fold_left draw frames sk) (default p (last frames))).
  { induction frames as [|props frames IH]; intros sk p Hsk; [done|].
    simpl. specialize (IH (draw sk props) props (draw_in_step sk p props Hsk)).
    destruct frames as [|props' frames]; [done|].
    rewrite last_cons_cons.
    destruct (last (props' :: frames)) eqn:E; [done|].
    by apply last_None in E. }
  by destruct (H (mount props0) props0) as [Ht _].
Qed.

(** X20.  After the wrap of [Particle.update] a coordinate that is a
    number lies on the canvas, between 0 and the canvas size. *)
Theorem wrap_stays_on_canvas size x :
  (0 <=? size) = true → is_nan x = false →
  (0 <=? wrap size x) = true ∧ (wrap size x <=? size) = true.
Proof.
  intros Hsize Hx. destruct (leb_not_nan 0 size Hsize) as [_ Hn].
  unfold wrap. destruct (x <? 0) eqn:Hneg.
  - rewrite (leb_not_gt size size) by (by apply leb_refl).
    split; [done | by apply leb_refl].
  - destruct (size <? x) eqn:Hbig; [by split|].
    split; by apply not_ltb_leb.
Qed.

Lemma wrap_stays_on_canvas_witness :
  (0 <=? wrap 800 (-3.5)) = true ∧ (wrap 800 (-3.5) <=? 800) = true
  ∧ wrap 800 (-3.5) = 800 ∧ wrap 800 801.25 = 0 ∧ wrap 800 12.5 = 12.5.
Proof.
  destruct (wrap_stays_on_canvas 800 (-3.5) eq_refl eq_refl) as [H1 H2].
  split; [exact H1|]. split; [exact H2|]. by vm_compute.
Defined.

End AuraFacts.

(** ** More on the encoder *)

Module Encoder.

Import FloatFacts.
Local Open Scope float_scope.

(** X21.  The clamp changes nothing about a sample that already lies in
    [-1, 1]: it is returned bit for bit, so only out-of-range samples are
    altered before scaling. *)
Theorem clamp_keeps_samples_in_range x :
  (-1 <=? x) = true → (x <=? 1) = true → Pcm.clamp x = x.
Proof.
  intros Hlo Hhi. destruct (leb_not_nan x 1 Hhi) as [Hx _].
  unfold Pcm.clamp.
  assert (Hmin : Pcm.Math_min 1 x = x).
  { unfold Pcm.Math_min. rewrite Hx, (leb_not_gt x 1 Hhi). simpl.
    by destruct (x <? 1). }
  rewrite Hmin. unfold Pcm.Math_max. rewrite Hx, (leb_not_gt (-1) x Hlo).
  simpl. by destruct (-1 <? x).
Qed.

Lemma clamp_keeps_samples_in_range_witness :
  Pcm.clamp 0.25 = 0.25 ∧ Pcm.clamp (-1) = (-1) ∧ Pcm.clamp (-0) = (-0).
Proof.
  split; [exact (clamp_keeps_samples_in_range 0.25 eq_refl eq_refl)|].
  split; [exact (clamp_keeps_samples_in_range (-1) eq_refl eq_refl)|].
  exact (clamp_keeps_samples_in_range (-0) eq_refl eq_refl).
Defined.

End Encoder.


(** ** The 16-bit store does not wrap *)

Module NoWrap.

Import FloatFacts.

(** *** Right shifts of the rounding procedure *)

Lemma shr_1_m mrs : 0 ≤ shr_m mrs → shr_m (shr_1 mrs) = shr_m mrs / 2 ∧ 0 ≤ shr_m (shr_1 mrs).
Proof.
  destruct mrs as [m r s]. cbn [shr_m shr_1]. intros Hm.
  destruct m as [|[p|p|]|p]; cbn [shr_m]; try lia.
  - split; [done|lia].
  - split; [|lia]. rewrite Pos2Z.inj_xI.
    apply Z.div_unique with (r := 1); lia.
  - split; [|lia]. rewrite Pos2Z.inj_xO.
    apply Z.div_unique with (r := 0); lia.
  - split; [done|lia].
Qed.

Lemma iter_shr_1_m p mrs :
  0 ≤ shr_m mrs →
  shr_m (SpecFloat.iter_pos shr_1 p mrs) = shr_m mrs / 2 ^ Z.pos p
  ∧ 0 ≤ shr_m (SpecFloat.iter_pos shr_1 p mrs).
Proof.
  revert mrs. induction p as [p IH|p IH|]; intros mrs Hm; simpl.
  - destruct (shr_1_m mrs Hm) as [H1 H1'].
    destruct (IH (shr_1 mrs) H1') as [H2 H2'].
    destruct (IH _ H2') as [H3 H3'].
    split; [|done]. rewrite H3, H2, H1.
    rewrite !Z.div_div by lia. f_equal.
    replace (Z.pos p~1) with (1 + Z.pos p + Z.pos p) by lia.
    rewrite !Z.pow_add_r by lia. rewrite Z.pow_1_r. lia.
  - destruct (IH mrs Hm) as [H2 H2'].
    destruct (IH _ H2') as [H3 H3'].
    split; [|done]. rewrite H3, H2.
    rewrite !Z.div_div by lia. f_equal.
    replace (Z.pos p~0) with (Z.pos p + Z.pos p) by lia.
    rewrite Z.pow_add_r by lia. lia.
  - destruct (shr_1_m mrs Hm) as [H1 H1']. split; [|done]. by rewrite H1.
Qed.

Lemma shr_m_shr mrs e n :
  0 ≤ shr_m mrs →
  (shr mrs e n).2 = e + Z.max n 0
  ∧ shr_m (shr mrs e n).1 = shr_m mrs / 2 ^ Z.max n 0
  ∧ (Z.max n 0 = 0 → (shr mrs e n).1 = mrs).
Proof.
  intros Hm. unfold shr. destruct n as [|p|p]; cbn [fst snd].
  - rewrite Z.max_id, Z.add_0_r, Z.pow_0_r, Z.div_1_r. done.
  - rewrite Z.max_l by lia. destruct (iter_shr_1_m p mrs Hm) as [H _].
    split; [done|]. split; [done|lia].
  - rewrite Z.max_r by lia. rewrite Z.add_0_r, Z.pow_0_r, Z.div_1_r. done.
Qed.

Lemma shr_fexp_m m e l :
  0 ≤ m →
  let k := Z.max (fexp prec emax (Zdigits2 m + e) - e) 0 in
  (shr_fexp prec emax m e l).2 = e + k
  ∧ shr_m (shr_fexp prec emax m e l).1 = m / 2 ^ k
  ∧ (k = 0 → (shr_fexp prec emax m e l).1 = shr_record_of_loc m l).
Proof.
  intros Hm k. unfold shr_fexp.
  assert (Hrec : shr_m (shr_record_of_loc m l) = m) by (by destruct l as [|[]]).
  destruct (shr_m_shr (shr_record_of_loc m l) e
              (fexp prec emax (Zdigits2 m + e) - e)) as (H1 & H2 & H3); [lia|].
  rewrite Hrec in H2. done.
Qed.

Lemma round_nearest_even_bound m l :
  m ≤ round_nearest_even m l ≤ m + 1.
Proof.
  destruct l as [|[]]; simpl; try lia. destruct (Z.even m); lia.
Qed.

(** What the rounding of an exact product can give: a finite result keeps
    the sign, its exponent is not below the product's, and its value is
    at most the product's plus one unit of the first shift. *)
Lemma binary_round_aux_finite sx M E s m e :
  binary_round_aux prec emax sx (Z.pos M) E loc_Exact = S754_finite s m e →
  s = sx
  ∧ ∃ k1 k2, 0 ≤ k1 ∧ 0 ≤ k2 ∧ e = E + k1 + k2
      ∧ k1 = Z.max (fexp prec emax (Zdigits2 (Z.pos M) + E) - E) 0
      ∧ Z.pos m * 2 ^ (k1 + k2)
        ≤ Z.pos M + (if decide (k1 = 0) then 0 else 2 ^ k1).
Proof.
  unfold binary_round_aux.
  destruct (shr_fexp_m (Z.pos M) E loc_Exact) as (He1 & Hm1 & Hexact); [lia|].
  destruct (shr_fexp prec emax (Z.pos M) E loc_Exact) as [mrs1 e1].
  cbn [fst snd] in *.
  set (k1 := Z.max (fexp prec emax (Zdigits2 (Z.pos M) + E) - E) 0) in *.
  assert (Hk1 : 0 ≤ k1) by lia.
  set (mr := round_nearest_even (shr_m mrs1) (loc_of_shr_record mrs1)).
  assert (Hmr : 0 ≤ mr ∧ mr * 2 ^ k1 ≤ Z.pos M + (if decide (k1 = 0) then 0 else 2 ^ k1)).
  { pose proof (round_nearest_even_bound (shr_m mrs1) (loc_of_shr_record mrs1)) as Hr.
    fold mr in Hr. rewrite Hm1 in Hr.
    assert (0 ≤ Z.pos M / 2 ^ k1) by (apply Z.div_pos; lia).
    split; [lia|]. destruct (decide (k1 = 0)) as [Hz|Hnz].
    - rewrite Hz, Z.pow_0_r. subst mr. rewrite (Hexact Hz). simpl. lia.
    - pose proof (Z.mul_div_le (Z.pos M) (2 ^ k1)) as Hd.
      assert (0 < 2 ^ k1) by lia. nia. }
  destruct (shr_fexp_m mr e1 loc_Exact) as (He2 & Hm2 & _); [lia|].
  destruct (shr_fexp prec emax mr e1 loc_Exact) as [mrs2 e2].
  cbn [fst snd] in *.
  set (k2 := Z.max (fexp prec emax (Zdigits2 mr + e1) - e1) 0) in *.
  destruct (shr_m mrs2) as [|m2|m2] eqn:Em2; [done| |done].
  destruct (e2 <=? emax - prec); [|done].
  intros [= <- <- <-]. split; [done|].
  exists k1, k2. split; [done|]. split; [lia|]. split; [lia|]. split; [done|].
  destruct Hmr as [Hmr0 Hmr1].
  assert (Hle : Z.pos m2 * 2 ^ k2 ≤ mr).
  { rewrite Hm2. rewrite Z.mul_comm. apply Z.mul_div_le. lia. }
  rewrite Z.pow_add_r by lia.
  assert (0 < 2 ^ k1) by lia. nia.
Qed.

Lemma digits2_pos_bound p :
  2 ^ (Z.pos (digits2_pos p) - 1) ≤ Z.pos p < 2 ^ Z.pos (digits2_pos p).
Proof.
  induction p as [p IH|p IH|]; cbn [digits2_pos]; [| |done].
  - rewrite Pos2Z.inj_succ.
    replace (Z.succ (Z.pos (digits2_pos p)) - 1) with (Z.pos (digits2_pos p) - 1 + 1) by lia.
    rewrite Z.pow_succ_r, Z.pow_add_r, Z.pow_1_r by lia. lia.
  - rewrite Pos2Z.inj_succ.
    replace (Z.succ (Z.pos (digits2_pos p)) - 1) with (Z.pos (digits2_pos p) - 1 + 1) by lia.
    rewrite Z.pow_succ_r, Z.pow_add_r, Z.pow_1_r by lia. lia.
Qed.

(** The integer part of [m * 2^e] is below [C] when, in units of [2^E],
    the value is below [C]. *)
Lemma shiftl_below m e E C :
  0 ≤ m → E ≤ e → E ≤ 0 →
  m * 2 ^ (e - E) < C * 2 ^ (- E) →
  Z.shiftl m e < C.
Proof.
  intros Hm HE HE0 Hlt.
  destruct (Z.le_gt_cases 0 e) as [He|He].
  - rewrite Z.shiftl_mul_pow2 by done.
    replace (e - E) with (e + - E) in Hlt by lia.
    rewrite Z.pow_add_r in Hlt by lia.
    assert (0 < 2 ^ (- E)) by lia. nia.
  - rewrite Z.shiftl_div_pow2 by lia.
    apply Z.div_lt_upper_bound; [lia|].
    replace (- E) with ((e - E) + - e) in Hlt by lia.
    rewrite Z.pow_add_r in Hlt by lia.
    assert (0 < 2 ^ (e - E)) by lia. assert (0 < 2 ^ (- e)) by lia. nia.
Qed.

(** *** What the clamp leaves of a number *)

Local Open Scope float_scope.

Lemma is_nan_true x : is_nan x = true → Prim2SF x = S754_nan.
Proof.
  unfold is_nan. rewrite FloatAxioms.eqb_spec. unfold SFeqb.
  destruct (Prim2SF x) as [s|s| |s m e] eqn:E; try done.
  - by destruct s.
  - by rewrite SFcompare_refl.
Qed.

(** Order of two finite numbers of the same sign, read off their
    exponents and significands. *)
Lemma compare_cont_le (a b : BinNums.positive) :
  Pos.compare_cont Eq a b ≠ Gt → (Z.pos a ≤ Z.pos b)%Z.
Proof.
  change (Pos.compare_cont Eq a b) with (a ?= b)%positive.
  intros H. apply Pos2Z.pos_le_pos. by intros Hgt.
Qed.

Lemma SFleb_positive m1 e1 m2 e2 :
  SFleb (S754_finite false m1 e1) (S754_finite false m2 e2) = true →
  (e1 < e2 ∨ e1 = e2 ∧ Z.pos m1 ≤ Z.pos m2)%Z.
Proof.
  unfold SFleb, SFcompare.
  destruct (Z.compare_spec e1 e2) as [He|He|He]; [|by left|done].
  intros H. right. split; [done|]. apply compare_cont_le.
  by destruct (Pos.compare_cont Eq m1 m2).
Qed.

Lemma SFleb_negative m1 e1 m2 e2 :
  SFleb (S754_finite true m1 e1) (S754_finite true m2 e2) = true →
  (e2 < e1 ∨ e1 = e2 ∧ Z.pos m2 ≤ Z.pos m1)%Z.
Proof.
  unfold SFleb, SFcompare.
  destruct (Z.compare_spec e1 e2) as [He|He|He]; [|done|by left].
  intros H. right. split; [done|]. apply compare_cont_le.
  pose proof (Pos.compare_cont_antisym m1 m2 Eq) as Ha. simpl in Ha.
  rewrite <- Ha. by destruct (Pos.compare_cont Eq m1 m2).
Qed.

(** A finite number of [[-1, 1]]: its exponent is at most [-52] and its
    significand at most [2^(-e)]. *)
Lemma unit_interval_finite s sg m e :
  Prim2SF s = S754_finite sg m e →
  (-1 <=? s) = true → (s <=? 1) = true →
  (e ≤ -52 ∧ Z.pos m ≤ 2 ^ (- e))%Z.
Proof.
  intros E Hlo Hhi.
  pose proof (Prim2SF_valid s) as Hv. rewrite E in Hv.
  unfold valid_binary, bounded, canonical_mantissa in Hv.
  apply andb_prop in Hv as [Hc _]. apply Z.eqb_eq in Hc.
  pose proof (digits2_pos_bound m) as Hd.
  assert (Hlt : (Z.pos m < 2 ^ 53)%Z).
  { unfold fexp in Hc. eapply Z.lt_le_trans; [apply Hd|].
    apply Z.pow_le_mono_r; [lia|]. unfold prec in Hc. lia. }
  clear Hc Hd.
  rewrite FloatAxioms.leb_spec, E in Hlo, Hhi.
  assert (Hcmp : (e < -52 ∨ e = -52 ∧ Z.pos m ≤ Z.pos 4503599627370496)%Z).
  { destruct sg.
    - change (Prim2SF (-1)) with (S754_finite true 4503599627370496 (-52)) in Hlo.
      apply SFleb_negative in Hlo as [?|[? ?]]; [by left|by right].
    - change (Prim2SF 1) with (S754_finite false 4503599627370496 (-52)) in Hhi.
      apply SFleb_positive in Hhi as [?|[? ?]]; [by left|by right]. }
  destruct Hcmp as [He|[-> Hm]]; [|by split].
  split; [lia|]. eapply Z.le_trans; [apply Z.lt_le_incl, Hlt|].
  apply Z.pow_le_mono_r; lia.
Qed.

(** The sign test of [scale] on a number that is not NaN. *)
Lemma ltb_zero s :
  (s <? 0) = match Prim2SF s with
             | S754_finite sg _ _ => sg
             | S754_infinity sg => sg
             | _ => false
             end.
Proof.
  rewrite FloatAxioms.ltb_spec.
  change (Prim2SF 0) with (S754_zero false).
  by destruct (Prim2SF s) as [[]|[]| |[] m e].
Qed.

(** *** The scaled sample *)

(** The product of a number of [[-1, 1]] with a scale factor of integer
    value [B], once rounded, has an integer part of at most [B]. *)
Lemma rounded_product_below sg m e mc ec B s' m' e' :
  (e ≤ -52)%Z → (Z.pos m ≤ 2 ^ (- e))%Z →
  (ec ≤ 0)%Z → (Z.pos mc = B * 2 ^ (- ec))%Z → (0 < B < 65536)%Z →
  binary_round_aux prec emax sg (Z.pos (m * mc)) (e + ec) loc_Exact
    = S754_finite s' m' e' →
  s' = sg ∧ (Z.shiftl (Z.pos m') e' ≤ B)%Z.
Proof.
  intros He Hm Hec Hmc HB Hr.
  apply binary_round_aux_finite in Hr
    as [-> (k1 & k2 & Hk1 & Hk2 & -> & Hk1def & Hle)].
  split; [done|].
  set (E := (e + ec)%Z) in *.
  assert (HM : (Z.pos (m * mc) ≤ B * 2 ^ (- E))%Z).
  { rewrite Pos2Z.inj_mul, Hmc. unfold E.
    replace (- (e + ec))%Z with (- e + - ec)%Z by lia.
    rewrite Z.pow_add_r by lia.
    assert (0 < 2 ^ (- ec))%Z by lia. nia. }
  assert (Hd : (Zdigits2 (Z.pos (m * mc)) + E ≤ 16)%Z).
  { cbn [Zdigits2]. pose proof (digits2_pos_bound (m * mc)) as [Hd _].
    set (d := Z.pos (digits2_pos (m * mc))) in *.
    assert (Hlt : (2 ^ (d - 1) < 2 ^ (16 - E))%Z).
    { replace (16 - E)%Z with (16 + - E)%Z by lia.
      rewrite (Z.pow_add_r 2 16) by lia.
      change (2 ^ 16)%Z with 65536%Z.
      assert (0 < 2 ^ (- E))%Z by lia. nia. }
    apply Z.pow_lt_mono_r_iff in Hlt; lia. }
  assert (Hk : (k1 ≤ - E - 37)%Z).
  { rewrite Hk1def. unfold fexp, prec, emin, emax. lia. }
  assert (Hpow : (2 ^ k1 < 2 ^ (- E))%Z).
  { apply Z.pow_lt_mono_r; lia. }
  assert (Z.shiftl (Z.pos m') (E + k1 + k2) < B + 1)%Z; [|lia].
  apply (shiftl_below _ _ E); [lia..|].
  replace (E + k1 + k2 - E)%Z with (k1 + k2)%Z by lia.
  assert (0 < 2 ^ (- E))%Z by lia.
  destruct (decide (k1 = 0%Z)); nia.
Qed.

(** The integer part of the scaled sample fits in sixteen bits. *)
Lemma truncate_scale_bounds s :
  Pcm.clamped s → (-32768 ≤ Pcm.truncate (Pcm.scale s) ≤ 32767)%Z.
Proof.
  unfold Pcm.scale, Pcm.truncate. rewrite ltb_zero.
  intros [Hn | [Hlo Hhi]].
  - apply is_nan_true in Hn. rewrite Hn, FloatAxioms.mul_spec, Hn. simpl. lia.
  - destruct (Prim2SF s) as [sg|sg| |sg m e] eqn:E.
    + rewrite FloatAxioms.mul_spec, E.
      change (Prim2SF 32767) with (S754_finite false 9006924376834048 (-38)).
      simpl. lia.
    + rewrite FloatAxioms.leb_spec, E in Hlo, Hhi. by destruct sg.
    + apply leb_not_nan in Hhi as [Hs _]. by apply is_nan_false in Hs.
    + destruct (unit_interval_finite s sg m e E Hlo Hhi) as [He Hm].
      destruct sg; rewrite FloatAxioms.mul_spec, E.
      * change (Prim2SF 32768) with (S754_finite false 4503599627370496 (-37)).
        cbn [SF64mul SFmul xorb].
        destruct (binary_round_aux _ _ _ _ _ _) as [?|?| |s' m' e'] eqn:Hr;
          try lia.
        apply (rounded_product_below _ _ _ _ _ 32768) in Hr as [-> Hr];
          [|done|done|done|by vm_compute|done].
        pose proof (Z.shiftl_nonneg (Z.pos m') e'). lia.
      * change (Prim2SF 32767) with (S754_finite false 9006924376834048 (-38)).
        cbn [SF64mul SFmul xorb].
        destruct (binary_round_aux _ _ _ _ _ _) as [?|?| |s' m' e'] eqn:Hr;
          try lia.
        apply (rounded_product_below _ _ _ _ _ 32767) in Hr as [-> Hr];
          [|done|done|done|by vm_compute|done].
        pose proof (Z.shiftl_nonneg (Z.pos m') e'). lia.
Qed.

Lemma ToInt16_small x :
  (-32768 ≤ Pcm.truncate x ≤ 32767)%Z → Pcm.ToInt16 x = Pcm.truncate x.
Proof.
  intros H. unfold Pcm.ToInt16.
  destruct (Z.le_gt_cases 0 (Pcm.truncate x)) as [Hpos|Hneg].
  - rewrite Z.mod_small by lia. case_match; lia.
  - replace (Pcm.truncate x mod 65536)%Z with (Pcm.truncate x + 65536)%Z.
    + case_match; lia.
    + apply Z.mod_unique with (q := (-1)%Z); lia.
Qed.

(** X22.  The store into the [Int16Array] never wraps around: for every
    input frame, whatever the numbers in it, each stored sample is the
    integer part of the clamped, scaled input itself, because that integer
    part always lies in [-32768, 32767]. *)
Theorem store_never_wraps inputData :
  Pcm.pcmData inputData
  = (λ x, Pcm.truncate (Pcm.scale (Pcm.clamp x))) <$> inputData.
Proof.
  unfold Pcm.pcmData. apply list_fmap_ext. intros _ x _.
  apply ToInt16_small, truncate_scale_bounds, PcmFacts.clamp_clamped.
Qed.

(** X23.  Samples beyond full scale saturate: an input above [1] is stored
    as [32767] and an input below [-1] as [-32768]. *)
Theorem out_of_range_samples_saturate x :
  ((1 <? x) = true → Pcm.ToInt16 (Pcm.scale (Pcm.clamp x)) = 32767%Z)
  ∧ ((x <? -1) = true → Pcm.ToInt16 (Pcm.scale (Pcm.clamp x)) = (-32768)%Z).
Proof.
  split; intros H.
  - destruct (leb_not_nan _ _ (ltb_leb _ _ H)) as [_ Hx].
    unfold Pcm.clamp, Pcm.Math_min. rewrite Hx, H. by vm_compute.
  - destruct (leb_not_nan _ _ (ltb_leb _ _ H)) as [Hx _].
    assert (Hmin : Pcm.Math_min 1 x = x).
    { unfold Pcm.Math_min. rewrite Hx. simpl.
      assert (Hgt : (1 <? x) = false).
      { rewrite FloatAxioms.ltb_spec in H |- *.
        change (Prim2SF 1) with (S754_finite false 4503599627370496 (-52)).
        change (Prim2SF (-1)) with (S754_finite true 4503599627370496 (-52)) in H.
        by destruct (Prim2SF x) as [[]|[]| |[] m e]. }
      rewrite Hgt. by destruct (x <? 1). }
    unfold Pcm.clamp. rewrite Hmin. unfold Pcm.Math_max. rewrite Hx, H.
    by vm_compute.
Qed.

Lemma out_of_range_samples_saturate_witness :
  Pcm.ToInt16 (Pcm.scale (Pcm.clamp 2)) = 32767%Z
  ∧ Pcm.ToInt16 (Pcm.scale (Pcm.clamp (-3))) = (-32768)%Z.
Proof.
  split.
  - exact (proj1 (out_of_range_samples_saturate 2) eq_refl).
  - exact (proj2 (out_of_range_samples_saturate (-3)) eq_refl).
Defined.

End NoWrap.
